(** * generate_prompt.py: file classifier, directory walker and report writer

    A shallow embedding of [generate_prompt.py] and the properties of its
    specification.

    Python's [str] is modelled by [string]: the UTF-8 bytes of the text.
    Byte-wise comparison of UTF-8 text is code-point comparison, and the
    ASCII characters the program looks for (the dot, the slash, the ignore
    prefixes) never occur inside a multi-byte sequence, so slicing, [rfind],
    [startswith] and sorting are those of Python.

    [str.lower] follows the Unicode case mappings.  [Str.lower] is what it
    does to ASCII text: on a text for which [Str.isascii] holds the two
    agree, and the filter tables hold ASCII text only.  Outside ASCII
    [str.lower] changes more than [Str.lower] does, and it can change the
    length of a text (U+212A KELVIN SIGN becomes the letter k, U+0130 becomes
    two code points, a capital sigma depends on what surrounds it).  A
    property that depends on what lower-casing does to such text is therefore
    stated either over every lower-casing function that keeps the dots of a
    text in place ([dot_shape]), as [str.lower] does, or for ASCII names.

    [os.path] is [posixpath]: the separator is the slash. *)

From Stdlib Require Import String Ascii ZArith Lia Bool.
From stdpp Require Import base decidable list sorting gmap strings.

Local Open Scope Z_scope.

(** ** Strings as Python has them *)

Module Str.

(** The newline character. *)
Definition nl : string := String "010"%char "".

(** [s[n:]] for a nonnegative [n]. *)
Fixpoint drop (n : nat) (s : string) : string :=
  match n, s with
  | O, _ => s
  | S _, EmptyString => ""
  | S n', String _ s' => drop n' s'
  end.

(** [s[:n]] for a nonnegative [n]. *)
Fixpoint take (n : nat) (s : string) : string :=
  match n, s with
  | O, _ => ""
  | S _, EmptyString => ""
  | S n', String c s' => String c (take n' s')
  end.

(** [s[i:j]], [s[i:]] and [s[:j]] for nonnegative indices. *)
Definition slice (s : string) (i j : Z) : string :=
  take (Z.to_nat (j - i)) (drop (Z.to_nat i) s).
Definition slice_from (s : string) (i : Z) : string := drop (Z.to_nat i) s.
Definition slice_to (s : string) (j : Z) : string := take (Z.to_nat j) s.

(** [s.rfind(ch)] for a one-character [ch]: the highest index at which
    [ch] occurs, or [-1]. *)
Fixpoint rfind (s : string) (ch : ascii) : Z :=
  match s with
  | EmptyString => -1
  | String c s' =>
      let r := rfind s' ch in
      if 0 <=? r then r + 1 else if Ascii.eqb c ch then 0 else -1
  end.

(** [c.lower()] on one ASCII character; a byte of a character outside
    ASCII is left as it is. *)
Definition lower_char (c : ascii) : ascii :=
  let n := N_of_ascii c in
  if ((65 <=? n) && (n <=? 90))%N then ascii_of_N (n + 32) else c.

(** [s.lower()] for an ASCII text [s]. *)
Fixpoint lower (s : string) : string :=
  match s with
  | EmptyString => ""
  | String c s' => String (lower_char c) (lower s')
  end.

(** [s.isascii()]: every character of [s] is below U+0080. *)
Fixpoint isascii (s : string) : bool :=
  match s with
  | EmptyString => true
  | String c s' => (N_of_ascii c <? 128)%N && isascii s'
  end.

(** Lower-casing leaves the characters that are not letters where they
    are. *)
Definition caseless (ch : ascii) : Prop :=
  ∀ c, Ascii.eqb (lower_char c) ch = Ascii.eqb c ch.

(** [s.startswith(p)]. *)
Definition startswith (s p : string) : bool := String.prefix p s.

(** [sep.join(l)]. *)
Fixpoint join (sep : string) (l : list string) : string :=
  match l with
  | [] => ""
  | [x] => x
  | x :: l' => x +:+ sep +:+ join sep l'
  end.

(** [s.endswith(ch)] for a one-character [ch]. *)
Fixpoint endswith (s : string) (ch : ascii) : bool :=
  match s with
  | EmptyString => false
  | String c EmptyString => Ascii.eqb c ch
  | String _ s' => endswith s' ch
  end.

(** [s.lstrip(ch)] for a one-character [ch]. *)
Fixpoint lstrip (s : string) (ch : ascii) : string :=
  match s with
  | EmptyString => ""
  | String c s' => if Ascii.eqb c ch then lstrip s' ch else s
  end.

(** [s.split(ch)] for a one-character [ch]; the pieces may be empty and
    there is always at least one. *)
Fixpoint split (s : string) (ch : ascii) : list string :=
  match s with
  | EmptyString => [""]
  | String c s' =>
      if Ascii.eqb c ch then "" :: split s' ch
      else match split s' ch with
           | piece :: pieces => String c piece :: pieces
           | [] => [String c ""]
           end
  end.

End Str.

(** ** [posixpath] *)

Module os_path.

Definition sep : ascii := "/"%char.
Definition extsep : ascii := "."%char.

(** [posixpath.basename]: [i = p.rfind('/') + 1; return p[i:]]. *)
Definition basename (p : string) : string :=
  let i := Str.rfind p sep + 1 in
  Str.slice_from p i.

(** The [while] loop of [genericpath._splitext], which walks
    [filenameIndex] up to [dotIndex] and leaves at the first character
    that is not a dot: [true] when it leaves that way, [false] when the
    loop runs to its end. *)
Fixpoint skip_leading_dots (fuel : nat) (p : string)
    (filenameIndex dotIndex : Z) : bool :=
  match fuel with
  | O => false
  | S fuel' =>
      if filenameIndex <? dotIndex then
        if negb (String.eqb (Str.slice p filenameIndex (filenameIndex + 1))
                            (String extsep ""))
        then true
        else skip_leading_dots fuel' p (filenameIndex + 1) dotIndex
      else false
  end.

(** [posixpath.splitext], that is [genericpath._splitext(p, '/', None, '.')]. *)
Definition splitext (p : string) : string * string :=
  let sepIndex := Str.rfind p sep in
  let dotIndex := Str.rfind p extsep in
  if (dotIndex >? sepIndex)
     && skip_leading_dots (Z.to_nat (dotIndex - sepIndex)) p (sepIndex + 1) dotIndex
  then (Str.slice_to p dotIndex, Str.slice_from p dotIndex)
  else (p, Str.slice_to p 0).

(** [posixpath.join] of two components. *)
Definition join (a b : string) : string :=
  if Str.startswith b (String sep "") then b
  else if String.eqb a "" || Str.endswith a sep then a +:+ b
  else a +:+ String sep "" +:+ b.

(** [posixpath.commonprefix] of two lists, as the length of the result. *)
Fixpoint commonprefix_length (l1 l2 : list string) : nat :=
  match l1, l2 with
  | x1 :: l1', x2 :: l2' =>
      if String.eqb x1 x2 then S (commonprefix_length l1' l2') else O
  | _, _ => O
  end.

(** The components [relpath] works on:
    [tail = p.lstrip('/'); tail.split('/') if tail else []]. *)
Definition path_list (p : string) : list string :=
  let tail := Str.lstrip p sep in
  if String.eqb tail "" then [] else Str.split tail sep.

(** [posixpath.relpath(path, start)] for absolute, normalised [path] and
    [start], which [abspath] returns as they are.  [main] passes
    [os.path.abspath(args.dir)] for [start], and [os.walk] builds [path]
    from it with [join] and the names of directory entries. *)
Definition relpath (path start : string) : string :=
  let start_list := path_list start in
  let path_list := path_list path in
  let i := commonprefix_length start_list path_list in
  let rel_list :=
    replicate (length start_list - i)%nat ".." ++ drop i path_list in
  match rel_list with
  | [] => "."
  | _ => Str.join "/" rel_list
  end.

End os_path.

(** ** The filter tables *)

Definition TARGET_EXTENSIONS : gset string :=
  {[ ".c"; ".cpp"; ".cc"; ".cxx"; ".h"; ".hpp"; ".hh";
     ".java"; ".kt";
     ".cs";
     ".go";
     ".rs";
     ".swift";
     ".js"; ".jsx"; ".ts"; ".tsx";
     ".php";
     ".py";
     ".rb";
     ".sh"; ".bat"; ".cmd"; ".ps1";
     ".json"; ".yaml"; ".yml"; ".toml"; ".ini"; ".cfg"; ".config"; ".env";
     ".md"; ".txt" ]}.

Definition TARGET_FILENAMES : gset string :=
  {[ "makefile"; "dockerfile"; "readme";
     "requirements.txt"; "pipfile"; "package.json";
     "tsconfig.json"; "composer.json" ]}.

Definition IGNORE_DIRNAMES : list string :=
  [ ".git"; "node_modules"; "__pycache__" ].

Definition IGNORE_FILENAMES : gset string :=
  {[ ".gitignore";
     ".pyc"; ".o"; ".class"; ".exe"; ".dll"; ".so" ]}.

(** ** The classifier *)

Definition is_target_file (file_path : string) : bool :=
  let base_name := os_path.basename file_path in
  let ext := snd (os_path.splitext base_name) in
  let base_name_lower := Str.lower base_name in
  let ext_lower := Str.lower ext in
  if bool_decide (base_name_lower ∈ IGNORE_FILENAMES) then false
  else if bool_decide (ext_lower ∈ TARGET_EXTENSIONS) then true
  else if String.eqb ext_lower "" && bool_decide (base_name_lower ∈ TARGET_FILENAMES)
       then true
  else false.

(** The bare-filename branch of [is_target_file]: the test of step 5, which
    is reached when steps 3 and 4 did not decide. *)
Definition bare_filename_branch (file_path : string) : bool :=
  let base_name := os_path.basename file_path in
  let ext := snd (os_path.splitext base_name) in
  String.eqb (Str.lower ext) "" && bool_decide (Str.lower base_name ∈ TARGET_FILENAMES).

(** The loop of [is_ignore_dir] over [IGNORE_DIRNAMES], which returns at the
    first prefix that matches. *)
Fixpoint is_ignore_dir_loop (dir_name_lower : string) (names : list string) : bool :=
  match names with
  | [] => false
  | ignore_name :: names' =>
      if Str.startswith dir_name_lower ignore_name then true
      else is_ignore_dir_loop dir_name_lower names'
  end.

Definition is_ignore_dir (dir_name : string) : bool :=
  let dir_name_lower := Str.lower dir_name in
  is_ignore_dir_loop dir_name_lower IGNORE_DIRNAMES.

(** ** The file system

    A directory tree as [os.listdir], [os.path.isdir] and [os.walk] see it.
    The order of [children] is the order in which the operating system
    yields the entries.  A directory that is not [listable] is one whose
    listing raises [PermissionError].  Symbolic links are not modelled. *)

#[warnings="-register-all"]
Inductive entry : Type :=
| File (name : string)
| Dir (name : string) (listable : bool) (children : list entry).

Definition entry_name (e : entry) : string :=
  match e with
  | File name => name
  | Dir name _ _ => name
  end.

(** [os.path.isdir] of the path that leads to [e]. *)
Definition isdir (e : entry) : bool :=
  match e with
  | File _ => false
  | Dir _ _ _ => true
  end.

(** The entry that [os.path.join(current_path, item)] names, handed to [k];
    [missing] when the directory has no entry of that name. *)
Definition lookup_child {A : Type} (children : list entry) (item : string)
    (k : entry → A) (missing : A) : A :=
  (fix go (cs : list entry) : A :=
     match cs with
     | [] => missing
     | c :: cs' => if String.eqb (entry_name c) item then k c else go cs'
     end) children.

(** [sorted(l)] and [l.sort()] on a list of strings. *)
Definition sorted (l : list string) : list string := merge_sort String.le l.

(** ** Tree rendering *)

Definition connector (is_last : bool) : string :=
  if is_last then "└──" else "├──".

Definition deeper (is_last : bool) : string :=
  if is_last then "    " else "│   ".

(** [recurse_dir(current_path, prefix)], as the list of the lines it appends
    to [lines], in order.  It is called on directories only; a directory that
    cannot be listed raises [PermissionError], and the function returns. *)
Fixpoint recurse_dir (current : entry) (prefix : string) {struct current}
    : list string :=
  match current with
  | File _ => []
  | Dir _ false _ => []
  | Dir _ true children =>
      let items := sorted (entry_name <$> children) in
      mjoin (imap (λ (i : nat) (item : string),
        let is_last := bool_decide (i = (length items - 1)%nat) in
        let line := prefix +:+ connector is_last +:+ " " +:+ item in
        lookup_child children item
          (λ c,
             if isdir c && is_ignore_dir item then []
             else line ::
                  (if isdir c
                   then recurse_dir c (prefix +:+ deeper is_last)
                   else []))
          [line]) items)
  end.

(** [get_directory_structure(root_path)], where [root_path] names the
    directory [root] and [base_name] is its name. *)
Definition get_directory_structure (root : entry) : string :=
  let base_name := entry_name root in
  let lines := [base_name] ++ recurse_dir root "" in
  Str.join Str.nl lines.

(** The ghost record of a rendered line: the names of the directories that
    lead from the root to the directory being listed, the entry the line
    stands for, and the text of the line. *)
Record tree_line : Type := TreeLine {
  line_parents : list string;
  line_entry : entry;
  line_text : string
}.

(** [recurse_dir] again, keeping with every line the entry it renders and
    where that entry lies. *)
Fixpoint recurse_dir_trace (current : entry) (parents : list string)
    (prefix : string) {struct current} : list tree_line :=
  match current with
  | File _ => []
  | Dir _ false _ => []
  | Dir _ true children =>
      let items := sorted (entry_name <$> children) in
      mjoin (imap (λ (i : nat) (item : string),
        let is_last := bool_decide (i = (length items - 1)%nat) in
        let line := prefix +:+ connector is_last +:+ " " +:+ item in
        lookup_child children item
          (λ c,
             if isdir c && is_ignore_dir item then []
             else TreeLine parents c line ::
                  (if isdir c
                   then recurse_dir_trace c (parents ++ [item])
                          (prefix +:+ deeper is_last)
                   else []))
          [TreeLine parents (File item) line]) items)
  end.

(** ** Target collection *)

Section os_walk.
Context {A : Type}.

(** What the body of a [for dirpath, dirnames, filenames in os.walk(...)]
    loop does in one round: the names it leaves in the list [dirnames],
    which it shares with the generator and may rewrite in place, and the
    values it appends to its result. *)
Variable body : string → list string → list string → list string * list A.

(** [os.walk(top)], top-down, with the default [onerror] and
    [followlinks]: a path that cannot be scanned, a directory that cannot be
    listed or a file, is skipped; after the loop body has run on the triple
    of a directory, the walk descends into the names that the body left in
    [dirnames], in that order. *)
Fixpoint os_walk (top : string) (d : entry) {struct d} : list A :=
  match d with
  | File _ => []
  | Dir _ false _ => []
  | Dir _ true children =>
      let dirs := entry_name <$> filter (λ c, isdir c = true) children in
      let nondirs := entry_name <$> filter (λ c, isdir c = false) children in
      let '(dirs, appended) := body top dirs nondirs in
      appended ++
      mjoin ((λ dirname,
                let new_path := os_path.join top dirname in
                lookup_child children dirname (λ c, os_walk new_path c) [])
             <$> dirs)
  end.
End os_walk.

(** One round of the loop of [collect_files]: prune [dirnames] in place,
    then append the relative path of every target file of [filenames]. *)
Definition collect_round (root_path dirpath : string)
    (dirnames filenames : list string) : list string * list string :=
  let dirnames := filter (λ d, is_ignore_dir d = false) dirnames in
  let appended :=
    omap (λ filename,
            let file_path := os_path.join dirpath filename in
            if is_target_file file_path
            then Some (os_path.relpath file_path root_path)
            else None) filenames in
  (dirnames, appended).

(** [collect_files(root_path)], where [root_path] names the directory [root]. *)
Definition collect_files (root_path : string) (root : entry) : list string :=
  let target_files := os_walk (collect_round root_path) root_path root in
  sorted target_files.

(** ** The report writer of [main] *)

Section report.

(** Opening and reading the file at a path: its text, or the text of the
    exception that was raised. *)
Variable read_text : string → string + string.

(** [f.write(s)] on the text written so far. *)
Definition write (f s : string) : string := f +:+ s.

(** One round of the loop over [files_to_list]. *)
Definition write_file (root_path : string) (f rel_path : string) : string :=
  let abs_path := os_path.join root_path rel_path in
  let f := write f ("--- " +:+ rel_path +:+ " ---" +:+ Str.nl) in
  let content :=
    match read_text abs_path with
    | inl content => content
    | inr e => "[読み込みエラー: " +:+ e +:+ "]" +:+ Str.nl
    end in
  let f := write f content in
  write f Str.nl.

(** The delimiter line of a path. *)
Definition delimiter_line (rel_path : string) : string :=
  "--- " +:+ rel_path +:+ " ---" +:+ Str.nl.

(** The placeholder written in place of the content of a file whose
    reading raised [e]. *)
Definition read_error_placeholder (e : string) : string :=
  "[読み込みエラー: " +:+ e +:+ "]" +:+ Str.nl.

(** What the loop of the writer writes for a list of paths. *)
Definition file_sections (root_path : string) (paths : list string) : string :=
  fold_left (write_file root_path) paths "".

(** The [with open(out_path, ...)] block of [main]: the text of the output
    file. *)
Definition write_report (root_path directory_tree : string)
    (files_to_list : list string) : string :=
  let f := "" in
  let f := write f ("=== Directory Structure ===" +:+ Str.nl) in
  let f := write f directory_tree in
  let f := write f (Str.nl +:+ Str.nl) in
  let f := write f ("=== File Contents ===" +:+ Str.nl) in
  fold_left (write_file root_path) files_to_list f.

(** [main] after argument parsing, as the text it writes to [out_path]. *)
Definition main (root_path : string) (root : entry) : string :=
  let directory_tree := get_directory_structure root in
  let files_to_list := collect_files root_path root in
  write_report root_path directory_tree files_to_list.

End report.

(** ** Well-formed trees and the directories a walk reaches *)

(** A name that a directory listing can hold: not empty, without separator,
    and neither [.] nor [..]. *)
Definition valid_name (name : string) : bool :=
  negb (String.eqb name "")
  && (Str.rfind name os_path.sep =? -1)
  && negb (String.eqb name ".")
  && negb (String.eqb name "..").

(** The entries of a directory have valid names, no two the same. *)
Fixpoint wf_entry (e : entry) : bool :=
  match e with
  | File _ => true
  | Dir _ _ children =>
      forallb (λ c, valid_name (entry_name c) && wf_entry c) children
      && bool_decide (NoDup (entry_name <$> children))
  end.

(** A path as [os.path.abspath] returns it: absolute, and without a
    trailing separator unless it consists of separators only. *)
Definition abspath_result (p : string) : bool :=
  Str.startswith p (String os_path.sep "")
  && (String.eqb (Str.lstrip p os_path.sep) "" || negb (Str.endswith p os_path.sep)).

(** [dirpath] of the directory reached from [root_path] through [names]. *)
Definition dir_path (root_path : string) (names : list string) : string :=
  fold_left os_path.join names root_path.

(** [walks_to d names d']: going down from the directory [d] through the
    directories [names] leads to [d'], every directory that is listed on the
    way can be listed, and none of [names] is an ignored directory name. *)
Inductive walks_to : entry → list string → entry → Prop :=
| walks_here d : walks_to d [] d
| walks_down name children c names d :
    c ∈ children →
    isdir c = true →
    is_ignore_dir (entry_name c) = false →
    walks_to c names d →
    walks_to (Dir name true children) (entry_name c :: names) d.

(** A tree with the content of its ignored directories taken away. *)
Fixpoint without_ignored_content (e : entry) : entry :=
  match e with
  | File name => File name
  | Dir name listable children =>
      if is_ignore_dir name then Dir name listable []
      else Dir name listable (without_ignored_content <$> children)
  end.

(** The same below a scan root, whose own name is not looked at. *)
Definition emptied_below (root : entry) : entry :=
  match root with
  | File name => File name
  | Dir name listable children =>
      Dir name listable (without_ignored_content <$> children)
  end.

(** The paths that [os.walk] builds: no trailing separator, unless they
    hold separators only. *)
Definition tidy (p : string) : Prop :=
  Str.lstrip p os_path.sep = "" ∨ Str.endswith p os_path.sep = false.

(** What holds of a line of the trace of the rendering of [root]: the
    entry it renders lies in a directory that a walk from [root] reaches,
    no directory on the way there has an ignored name, and if the entry is
    a directory its own name is not ignored either. *)
Definition line_ok (root : entry) (l : tree_line) : Prop :=
  Forall (λ n, is_ignore_dir n = false) (line_parents l)
  ∧ (isdir (line_entry l) = true →
     is_ignore_dir (entry_name (line_entry l)) = false)
  ∧ ∃ name children,
      walks_to root (line_parents l) (Dir name true children)
      ∧ line_entry l ∈ children.

(** The files that the walk of [collect_files] appends: the target files
    of the directories that it reaches. *)
Definition collected (d : entry) (pre : list string) (p : string) : Prop :=
  ∃ names name children f,
    walks_to d names (Dir name true children)
    ∧ File f ∈ children
    ∧ is_target_file f = true
    ∧ p = Str.join "/" (pre ++ names ++ [f]).

(** ** Example trees *)

(** A project whose listing ends with an ignored directory. *)
Definition project_with_node_modules : entry :=
  Dir "proj" true
    [ Dir "node_modules" true [File "skip.js"];
      Dir "lib" true [File "m.py"];
      File "a.py" ].

(** A scan root that is itself called [node_modules]. *)
Definition root_named_node_modules : entry :=
  Dir "node_modules" true [File "a.py"].

(** A project with a target file below [.git], and one below [src]. *)
Definition project_with_git : entry :=
  Dir "proj" true
    [ Dir "src" true [File "node_modules.py"; File "notes.bin"];
      Dir ".git" true [File "node_modules.py"];
      File "README" ].

(** A reader for which [/srv/proj/a.py] cannot be opened. *)
Definition read_text_denied (p : string) : string + string :=
  if String.eqb p "/srv/proj/a.py" then inr "denied" else inl "x=1".

(** ** The classifier as the specification words it *)

(** The text of [s] from its last dot on, when [s] has a dot. *)
Fixpoint from_last_dot (s : string) : option string :=
  match s with
  | EmptyString => None
  | String c s' =>
      match from_last_dot s' with
      | Some e => Some e
      | None => if Ascii.eqb c "." then Some s else None
      end
  end.

(** "The substring after the last dot, including the dot, or the empty
    string if none". *)
Definition extension_from_last_dot (base_name : string) : string :=
  default "" (from_last_dot base_name).

(** The same, on the name without its leading dots. *)
Definition extension_past_leading_dots (base_name : string) : string :=
  default "" (from_last_dot (Str.lstrip base_name ".")).

(** Steps 2 to 6 of the classifier, over a basename and an extension. *)
Definition classify (base_name ext : string) : bool :=
  let base_name_lower := Str.lower base_name in
  let ext_lower := Str.lower ext in
  if bool_decide (base_name_lower ∈ IGNORE_FILENAMES) then false
  else if bool_decide (ext_lower ∈ TARGET_EXTENSIONS) then true
  else if bool_decide (ext = "") && bool_decide (base_name_lower ∈ TARGET_FILENAMES)
       then true
  else false.

(** ** The classifier over any lower-casing *)

(** Where the dots of a text are: [true] for a dot, [false] for a run of
    other characters, however long.  [str.lower] turns every code point
    other than the dot into one code point or more, none of them a dot, and
    leaves the dot as it is: it keeps the dot shape of a text, also where it
    changes the length of the text. *)
Fixpoint dot_shape (s : string) : list bool :=
  match s with
  | EmptyString => []
  | String c s' =>
      if Ascii.eqb c "." then true :: dot_shape s'
      else match dot_shape s' with
           | false :: rest => false :: rest
           | shape => false :: shape
           end
  end.

(** The dot shapes of the names without extension: leading dots, then at
    most one run of other characters. *)
Fixpoint extension_free (shape : list bool) : bool :=
  match shape with
  | [] => true
  | true :: shape' => extension_free shape'
  | false :: shape' => match shape' with [] => true | _ => false end
  end.

(** [is_target_file] with [low] for [str.lower]. *)
Definition is_target_file_with (low : string → string) (file_path : string)
    : bool :=
  let base_name := os_path.basename file_path in
  let ext := snd (os_path.splitext base_name) in
  let base_name_lower := low base_name in
  let ext_lower := low ext in
  if bool_decide (base_name_lower ∈ IGNORE_FILENAMES) then false
  else if bool_decide (ext_lower ∈ TARGET_EXTENSIONS) then true
  else if String.eqb ext_lower "" && bool_decide (base_name_lower ∈ TARGET_FILENAMES)
       then true
  else false.

(** Its third test, the bare-filename branch. *)
Definition bare_filename_branch_with (low : string → string)
    (file_path : string) : bool :=
  let base_name := os_path.basename file_path in
  let ext := snd (os_path.splitext base_name) in
  String.eqb (low ext) "" && bool_decide (low base_name ∈ TARGET_FILENAMES).

(** ** Further notions for the walker *)

(** The indentation of a rendered line: one unit per ancestor, [flags]
    telling for each ancestor whether it was the last item of its listing. *)
Definition indentation (flags : list bool) : string :=
  foldr (λ is_last rest, deeper is_last +:+ rest) "" flags.

(** Whether the name [item] of the listing of a directory gets a line of
    its own: always, unless it names an ignored directory. *)
Definition gets_line (children : list entry) (item : string) : bool :=
  lookup_child children item
    (λ c, negb (isdir c && is_ignore_dir item)) true.

(** [reordered e e']: the tree [e'] is the tree [e] with the entries of its
    directories yielded in another order. *)
#[warnings="-register-all"]
Inductive reordered : entry → entry → Prop :=
| reordered_file name : reordered (File name) (File name)
| reordered_dir name listable children children1 children2 :
    children ≡ₚ children1 →
    Forall2 reordered children1 children2 →
    reordered (Dir name listable children) (Dir name listable children2).

(** The tree in which every directory that cannot be listed is an empty
    directory that can. *)
Fixpoint unlistable_as_empty (e : entry) : entry :=
  match e with
  | File name => File name
  | Dir name false _ => Dir name true []
  | Dir name true children =>
      Dir name true (unlistable_as_empty <$> children)
  end.

(** The text that the writer writes before the file sections. *)
Definition report_header (directory_tree : string) : string :=
  "=== Directory Structure ===" +:+ Str.nl
  +:+ directory_tree +:+ Str.nl +:+ Str.nl
  +:+ "=== File Contents ===" +:+ Str.nl.

(** The section of one file: its delimiter line, its content or the
    placeholder of the error, and a newline. *)
Definition file_section (read_text : string → string + string)
    (root_path rel_path : string) : string :=
  delimiter_line rel_path
  +:+ match read_text (os_path.join root_path rel_path) with
      | inl content => content
      | inr e => read_error_placeholder e
      end
  +:+ Str.nl.

(** A project listed in two orders. *)
Definition project_listed : entry :=
  Dir "proj" true
    [ File "b.py"; Dir "src" true [File "z.md"; File "a.c"]; File "README" ].

Definition project_listed_otherwise : entry :=
  Dir "proj" true
    [ Dir "src" true [File "a.c"; File "z.md"]; File "README"; File "b.py" ].

(** * Properties *)

(** ** Strings *)

Module StrFacts.
Import Str.

Lemma rfind_lower_bound s ch : -1 ≤ rfind s ch.
Proof.
  induction s as [|c s IH]; simpl; [lia|].
  destruct (Z.leb_spec 0 (rfind s ch)); [lia|].
  destruct (Ascii.eqb c ch); lia.
Qed.

Lemma rfind_cons c s ch :
  rfind (String c s) ch =
    if 0 <=? rfind s ch then rfind s ch + 1
    else if Ascii.eqb c ch then 0 else -1.
Proof. reflexivity. Qed.

Lemma slice_from_cons c s i :
  0 ≤ i → slice_from (String c s) (i + 1) = slice_from s i.
Proof.
  intros Hi. unfold slice_from.
  replace (Z.to_nat (i + 1)) with (S (Z.to_nat i)) by lia. reflexivity.
Qed.

Lemma slice_cons c s i j :
  0 ≤ i → slice (String c s) (i + 1) (j + 1) = slice s i j.
Proof.
  intros Hi. unfold slice.
  replace (j + 1 - (i + 1)) with (j - i) by lia.
  replace (Z.to_nat (i + 1)) with (S (Z.to_nat i)) by lia. reflexivity.
Qed.

Lemma slice_head c s : slice (String c s) 0 1 = String c "".
Proof. reflexivity. Qed.

(** The text after the last [ch] does not contain [ch]. *)
Lemma rfind_slice_from_after s ch :
  rfind (slice_from s (rfind s ch + 1)) ch = -1.
Proof.
  induction s as [|c s IH]; [reflexivity|].
  rewrite rfind_cons.
  pose proof (rfind_lower_bound s ch).
  destruct (Z.leb_spec 0 (rfind s ch)).
  - rewrite slice_from_cons by lia. exact IH.
  - replace (rfind s ch) with (-1) in * by lia.
    destruct (Ascii.eqb c ch) eqn:Hc.
    + exact IH.
    + change (slice_from (String c s) (-1 + 1)) with (String c s).
      rewrite rfind_cons. rewrite Hc.
      change (slice_from s (-1 + 1)) with s in IH. rewrite IH. reflexivity.
Qed.

Lemma caseless_dot : caseless ".".
Proof. intros [[] [] [] [] [] [] [] []]; reflexivity. Qed.

Lemma caseless_slash : caseless "/".
Proof. intros [[] [] [] [] [] [] [] []]; reflexivity. Qed.

Lemma rfind_lower s ch : caseless ch → rfind (lower s) ch = rfind s ch.
Proof.
  intros Hch. induction s as [|c s IH]; [reflexivity|].
  simpl lower. rewrite !rfind_cons, IH, Hch. reflexivity.
Qed.

Lemma drop_lower n s : drop n (lower s) = lower (drop n s).
Proof.
  revert s. induction n as [|n IH]; intros [|c s]; simpl; auto.
Qed.

Lemma take_lower n s : take n (lower s) = lower (take n s).
Proof.
  revert s. induction n as [|n IH]; intros [|c s]; simpl; auto.
  by rewrite IH.
Qed.

Lemma slice_lower s i j : slice (lower s) i j = lower (slice s i j).
Proof. unfold slice. by rewrite drop_lower, take_lower. Qed.

Lemma lower_eq_nil s : lower s = "" ↔ s = "".
Proof. destruct s; simpl; split; congruence. Qed.

Lemma lower_is_dot s : String.eqb (lower s) "." = String.eqb s ".".
Proof.
  destruct s as [|c [|c' s]]; try reflexivity.
  - simpl lower. simpl. rewrite caseless_dot. reflexivity.
  - simpl lower. simpl. rewrite caseless_dot.
    destruct (Ascii.eqb c "."); reflexivity.
Qed.

End StrFacts.

(** ** [posixpath] *)

Module os_path_facts.
Import Str StrFacts os_path.

(** A basename holds no separator. *)
Lemma basename_no_sep p : rfind (basename p) sep = -1.
Proof. apply rfind_slice_from_after. Qed.

Lemma no_sep_cons c s :
  rfind (String c s) sep = -1 → Ascii.eqb c sep = false ∧ rfind s sep = -1.
Proof.
  rewrite rfind_cons. pose proof (rfind_lower_bound s sep).
  destruct (Z.leb_spec 0 (rfind s sep)); [lia|].
  destruct (Ascii.eqb c sep); [lia|]. split; [done|lia].
Qed.

Lemma basename_idemp p : rfind p sep = -1 → basename p = p.
Proof. unfold basename. intros ->. reflexivity. Qed.

Lemma skip_leading_dots_cons fuel c s i d :
  0 ≤ i →
  skip_leading_dots fuel (String c s) (i + 1) (d + 1) =
  skip_leading_dots fuel s i d.
Proof.
  revert i. induction fuel as [|fuel IH]; intros i Hi; [reflexivity|].
  simpl. rewrite slice_cons by lia.
  replace (i + 1 <? d + 1) with (i <? d) by lia.
  rewrite IH by lia. reflexivity.
Qed.

(** The loop needs no more rounds than [splitext] allows it. *)
Lemma skip_leading_dots_fuel fuel p i d :
  (Z.to_nat (d - i) ≤ fuel)%nat →
  skip_leading_dots fuel p i d = skip_leading_dots (Z.to_nat (d - i)) p i d.
Proof.
  revert i. induction fuel as [|fuel IH]; intros i Hfuel.
  - by replace (Z.to_nat (d - i)) with O by lia.
  - cbn [skip_leading_dots]. destruct (Z.ltb_spec i d) as [Hlt|Hge].
    + replace (Z.to_nat (d - i)) with (S (Z.to_nat (d - (i + 1)))) by lia.
      cbn [skip_leading_dots]. replace (i <? d) with true by lia.
      destruct (negb _); [done|]. apply IH. lia.
    + by replace (Z.to_nat (d - i)) with O by lia.
Qed.

Lemma from_last_dot_rfind s :
  from_last_dot s =
    if 0 <=? rfind s extsep then Some (slice_from s (rfind s extsep)) else None.
Proof.
  unfold extsep. induction s as [|c s IH]; [reflexivity|].
  simpl from_last_dot. rewrite IH, rfind_cons.
  destruct (Z.leb_spec 0 (rfind s ".")) as [Hr|Hr].
  - replace (0 <=? rfind s "." + 1) with true by lia.
    rewrite slice_from_cons by lia. reflexivity.
  - destruct (Ascii.eqb c "."); reflexivity.
Qed.

(** A leading dot of a name is not the dot of an extension. *)
Lemma splitext_leading_dot s :
  rfind s sep = -1 →
  snd (splitext (String extsep s)) = snd (splitext s).
Proof.
  intros Hsep. unfold splitext.
  assert (rfind (String extsep s) sep = -1) as ->.
  { rewrite rfind_cons, Hsep. reflexivity. }
  rewrite Hsep, rfind_cons. change (Ascii.eqb extsep extsep) with true.
  change (-1 + 1) with 0.
  destruct (Z.leb_spec 0 (rfind s extsep)) as [Hr|Hr].
  - replace (rfind s extsep + 1 >? -1) with true by lia.
    replace (rfind s extsep >? -1) with true by lia.
    replace (Z.to_nat (rfind s extsep + 1 - -1))
      with (S (Z.to_nat (rfind s extsep - -1))) by lia.
    cbn [skip_leading_dots andb].
    replace (0 <? rfind s extsep + 1) with true by lia.
    rewrite slice_head.
    change (negb (String.eqb (String extsep "") (String extsep ""))) with false.
    cbn iota. rewrite (skip_leading_dots_cons _ extsep s 0) by lia.
    destruct (skip_leading_dots _ s 0 _); cbn [snd].
    + by rewrite slice_from_cons.
    + reflexivity.
  - replace (rfind s extsep >? -1) with false by lia. reflexivity.
Qed.

(** After a first character that is not a dot, the extension starts at
    the last dot. *)
Lemma splitext_leading_other c s :
  Ascii.eqb c extsep = false →
  rfind (String c s) sep = -1 →
  snd (splitext (String c s)) = default "" (from_last_dot (String c s)).
Proof.
  intros Hc Hsep. rewrite from_last_dot_rfind. unfold splitext.
  rewrite Hsep, rfind_cons, Hc. change (-1 + 1) with 0.
  destruct (Z.leb_spec 0 (rfind s extsep)) as [Hr|Hr].
  - replace (rfind s extsep + 1 >? -1) with true by lia.
    replace (0 <=? rfind s extsep + 1) with true by lia.
    replace (Z.to_nat (rfind s extsep + 1 - -1))
      with (S (Z.to_nat (rfind s extsep - -1))) by lia.
    cbn [skip_leading_dots andb].
    replace (0 <? rfind s extsep + 1) with true by lia.
    rewrite slice_head.
    assert (String.eqb (String c "") (String extsep "") = false) as ->.
    { simpl. rewrite Hc. reflexivity. }
    reflexivity.
  - reflexivity.
Qed.

(** The extension that [splitext] gives a name without separator. *)
Lemma splitext_ext b :
  rfind b sep = -1 → snd (splitext b) = extension_past_leading_dots b.
Proof.
  unfold extension_past_leading_dots.
  induction b as [|c b IH]; intros Hsep; [reflexivity|].
  destruct (no_sep_cons _ _ Hsep) as [_ Hsep'].
  simpl lstrip. destruct (Ascii.eqb c ".") eqn:Hc.
  - apply Ascii.eqb_eq in Hc as ->.
    rewrite <- IH by done. by apply splitext_leading_dot.
  - by apply splitext_leading_other.
Qed.

End os_path_facts.

Module os_path_lower.
Import Str StrFacts os_path os_path_facts.

Lemma skip_leading_dots_lower fuel p i d :
  skip_leading_dots fuel (lower p) i d = skip_leading_dots fuel p i d.
Proof.
  revert i. induction fuel as [|fuel IH]; intros i; [reflexivity|].
  simpl. rewrite slice_lower, IH.
  change (String extsep "") with ".". rewrite lower_is_dot. reflexivity.
Qed.

(** Lower-casing a name lower-cases its extension. *)
Lemma splitext_lower p :
  snd (splitext (lower p)) = lower (snd (splitext p)).
Proof.
  unfold splitext.
  rewrite (rfind_lower p sep) by apply caseless_slash.
  rewrite (rfind_lower p extsep) by apply caseless_dot.
  rewrite skip_leading_dots_lower.
  destruct (_ && _); cbn [snd]; unfold slice_from, slice_to.
  - apply drop_lower.
  - apply take_lower.
Qed.

End os_path_lower.

(** ** The dots of a text *)

Module DotShape.
Import Str StrFacts os_path os_path_facts.

Lemma dot_shape_nil s : dot_shape s = [] → s = "".
Proof.
  destruct s as [|c s]; [done|]. simpl.
  destruct (Ascii.eqb c "."); [done|].
  by destruct (dot_shape s) as [|[] ?].
Qed.

(** A text without a dot is empty or one run. *)
Lemma dot_shape_no_dot s :
  from_last_dot s = None →
  dot_shape s = match s with EmptyString => [] | String _ _ => [false] end.
Proof.
  induction s as [|c s IH]; [done|].
  simpl. destruct (from_last_dot s); [done|].
  destruct (Ascii.eqb c "."); [done|]. intros _.
  rewrite IH by done. by destruct s.
Qed.

Lemma from_last_dot_nonempty s e : from_last_dot s = Some e → e ≠ "".
Proof.
  induction s as [|c s IH]; [done|].
  simpl. destruct (from_last_dot s) as [e'|].
  - intros [= <-]. by apply IH.
  - destruct (Ascii.eqb c "."); [|done]. by intros [= <-].
Qed.

(** The dot shape of a name tells whether [splitext] finds no extension. *)
Lemma splitext_none_shape b :
  rfind b sep = -1 →
  snd (splitext b) = "" →
  extension_free (dot_shape b) = true.
Proof.
  intros Hsep. rewrite splitext_ext by done.
  unfold extension_past_leading_dots. clear Hsep.
  induction b as [|c b IH]; [done|].
  simpl lstrip. simpl dot_shape. destruct (Ascii.eqb c ".") eqn:Hc; [done|].
  intros Hext.
  destruct (from_last_dot (String c b)) as [e|] eqn:He.
  { by apply from_last_dot_nonempty in He. }
  apply dot_shape_no_dot in He. simpl in He. rewrite Hc in He.
  by rewrite He.
Qed.

(** [Str.lower] keeps the dots in place. *)
Lemma lower_dot_shape s : dot_shape (lower s) = dot_shape s.
Proof.
  induction s as [|c s IH]; [done|].
  simpl. by rewrite caseless_dot, IH.
Qed.

End DotShape.

(** ** The filter tables *)

(** A decidable fact about concrete values, by evaluation. *)
Ltac by_compute :=
  match goal with
  | |- ?P => apply (bool_decide_unpack P); vm_compute; exact I
  end.

(** Case analysis on membership of one of the tables. *)
Ltac table_cases H :=
  unfold TARGET_EXTENSIONS, TARGET_FILENAMES, IGNORE_FILENAMES in H;
  set_unfold in H; destruct_or!; subst.

(** A decidable fact about concrete values refuted by evaluation. *)
Ltac by_compute_not :=
  let H := fresh in
  intros H; apply (bool_decide_pack _) in H; vm_compute in H; exact H.

Lemma empty_not_target_extension : "" ∉ TARGET_EXTENSIONS.
Proof. by_compute_not. Qed.

Lemma ignored_not_target_extension x :
  x ∈ IGNORE_FILENAMES → bool_decide (x ∈ TARGET_EXTENSIONS) = false.
Proof. intros H. table_cases H; vm_compute; reflexivity. Qed.

Lemma ignored_not_target_filename x :
  x ∈ IGNORE_FILENAMES → bool_decide (x ∈ TARGET_FILENAMES) = false.
Proof. intros H. table_cases H; vm_compute; reflexivity. Qed.

Lemma ignored_not_empty x : x ∈ IGNORE_FILENAMES → String.eqb x "" = false.
Proof. intros H. table_cases H; reflexivity. Qed.

(** ** The classifier *)

Section classifier.
Import Str StrFacts os_path os_path_facts os_path_lower.

Lemma is_target_file_unfold file_path :
  is_target_file file_path =
    classify (basename file_path) (snd (splitext (basename file_path))).
Proof.
  unfold is_target_file, classify.
  destruct (snd (splitext (basename file_path))) as [|c e]; reflexivity.
Qed.

(** The third test of [is_target_file] is its bare-filename branch. *)
Lemma is_target_file_steps file_path :
  is_target_file file_path =
    if bool_decide (lower (basename file_path) ∈ IGNORE_FILENAMES) then false
    else if bool_decide (lower (snd (splitext (basename file_path)))
                           ∈ TARGET_EXTENSIONS) then true
    else bare_filename_branch file_path.
Proof.
  unfold is_target_file, bare_filename_branch.
  by destruct (String.eqb _ _ && _).
Qed.

(** [is_target_file] is the classifier over [Str.lower]. *)
Lemma is_target_file_with_lower file_path :
  is_target_file_with lower file_path = is_target_file file_path.
Proof. reflexivity. Qed.

Lemma bare_filename_branch_with_lower file_path :
  bare_filename_branch_with lower file_path = bare_filename_branch file_path.
Proof. reflexivity. Qed.

(** The third test of the classifier over any lower-casing. *)
Lemma is_target_file_with_steps low file_path :
  is_target_file_with low file_path =
    if bool_decide (low (basename file_path) ∈ IGNORE_FILENAMES) then false
    else if bool_decide (low (snd (splitext (basename file_path)))
                           ∈ TARGET_EXTENSIONS) then true
    else bare_filename_branch_with low file_path.
Proof.
  unfold is_target_file_with, bare_filename_branch_with.
  by destruct (String.eqb _ _ && _).
Qed.

(** Only the basename of a path matters. *)
Lemma is_target_file_basename file_path :
  is_target_file (basename file_path) = is_target_file file_path.
Proof.
  unfold is_target_file.
  rewrite (basename_idemp (basename file_path)) by apply basename_no_sep.
  reflexivity.
Qed.

End classifier.

Section classifier_claims.
Import Str StrFacts os_path os_path_facts os_path_lower DotShape.

(** C1 (as amended).  For every file path, [is_target_file] extracts the
    extension of the basename as the text from the last dot on, the dot
    included, of the basename without its leading dots, or the empty string
    when no dot is left; steps 3 to 6 of the classifier are computed over
    that extension. *)
Theorem is_target_file_extension file_path :
  snd (splitext (basename file_path))
    = extension_past_leading_dots (basename file_path)
  ∧ is_target_file file_path
    = classify (basename file_path)
               (extension_past_leading_dots (basename file_path)).
Proof.
  assert (snd (splitext (basename file_path))
          = extension_past_leading_dots (basename file_path)) as Hext.
  { apply splitext_ext, basename_no_sep. }
  split; [exact Hext|].
  rewrite <- Hext. apply is_target_file_unfold.
Qed.

(** C1 as stated fails on a dot-file: the basename [.env] has a dot but its
    extension is empty, and the file is rejected although [.env] is a target
    extension. *)
Lemma is_target_file_extension_dotfile :
  snd (splitext (basename ".env")) ≠ extension_from_last_dot (basename ".env")
  ∧ is_target_file ".env"
    ≠ classify (basename ".env") (extension_from_last_dot (basename ".env")).
Proof. split; vm_compute; discriminate. Qed.

(** C2.  A file whose lower-cased extension or lower-cased basename is in the
    ignore set is rejected, whatever the target tables hold; a file whose
    lower-cased extension is a target extension and whose lower-cased
    basename is not in the ignore set is accepted. *)
Theorem is_target_file_ignore_precedence file_path :
  (lower (snd (splitext (basename file_path))) ∈ IGNORE_FILENAMES
     ∨ lower (basename file_path) ∈ IGNORE_FILENAMES →
   is_target_file file_path = false)
  ∧ (lower (snd (splitext (basename file_path))) ∈ TARGET_EXTENSIONS →
     lower (basename file_path) ∉ IGNORE_FILENAMES →
     is_target_file file_path = true).
Proof.
  unfold is_target_file. split.
  - intros [Hext|Hbase].
    + case_bool_decide; [reflexivity|].
      rewrite (ignored_not_target_extension _ Hext).
      rewrite (ignored_not_empty _ Hext). reflexivity.
    + rewrite (bool_decide_eq_true_2 _ Hbase). reflexivity.
  - intros Hext Hbase.
    rewrite (bool_decide_eq_false_2 _ Hbase).
    rewrite (bool_decide_eq_true_2 _ Hext). reflexivity.
Qed.

Lemma is_target_file_ignore_precedence_witness :
  is_target_file "build/mod.PYC" = false
  ∧ is_target_file "src/.GitIgnore" = false
  ∧ is_target_file "src/Main.PY" = true.
Proof.
  split; [|split].
  - apply (proj1 (is_target_file_ignore_precedence "build/mod.PYC")).
    left. by_compute.
  - apply (proj1 (is_target_file_ignore_precedence "src/.GitIgnore")).
    right. by_compute.
  - apply (proj2 (is_target_file_ignore_precedence "src/Main.PY")).
    + by_compute.
    + by_compute_not.
Defined.

(** C6.  A file with no extension is accepted if and only if its lower-cased
    basename is in the bare-filename target set. *)
Theorem is_target_file_no_extension file_path :
  snd (splitext (basename file_path)) = "" →
  is_target_file file_path = true
  ↔ lower (basename file_path) ∈ TARGET_FILENAMES.
Proof.
  intros Hext. unfold is_target_file. rewrite Hext.
  change (lower "") with "".
  rewrite (bool_decide_eq_false_2 _ empty_not_target_extension).
  change (String.eqb "" "") with true. cbn [andb].
  case_bool_decide as Hignored.
  - apply ignored_not_target_filename in Hignored.
    apply bool_decide_eq_false in Hignored. split; [discriminate|done].
  - destruct (bool_decide (lower (basename file_path) ∈ TARGET_FILENAMES)) eqn:Hbare.
    + apply bool_decide_eq_true in Hbare. done.
    + apply bool_decide_eq_false in Hbare. split; [discriminate|done].
Qed.

Lemma is_target_file_no_extension_witness :
  (is_target_file "proj/Makefile" = true
   ↔ lower (basename "proj/Makefile") ∈ TARGET_FILENAMES)
  ∧ (is_target_file "proj/.gitignore" = true
     ↔ lower (basename "proj/.gitignore") ∈ TARGET_FILENAMES).
Proof.
  split.
  - apply (is_target_file_no_extension "proj/Makefile"). vm_compute. reflexivity.
  - apply (is_target_file_no_extension "proj/.gitignore"). vm_compute. reflexivity.
Defined.

(** C7 (as amended).  When the bare-filename branch fires, the matching
    entry of the bare-filename set is one of its dot-free entries: the
    entries that contain a dot (requirements.txt, package.json,
    tsconfig.json, composer.json) are never the lower-cased basename of a
    name whose extracted extension is empty.  This holds whatever
    lower-casing does to the letters, inside ASCII and outside, as long as it
    keeps the dots of a text in place; [str.lower] does. *)
Theorem bare_filename_branch_dot_free (low : string → string) file_path :
  (∀ s, dot_shape (low s) = dot_shape s) →
  bare_filename_branch_with low file_path = true →
  rfind (low (basename file_path)) "." = -1
  ∧ low (basename file_path)
    ∈ ({[ "makefile"; "dockerfile"; "readme"; "pipfile" ]} : gset string).
Proof.
  intros Hlow. unfold bare_filename_branch_with.
  intros [Hext Hbare%bool_decide_eq_true]%andb_true_iff.
  apply String.eqb_eq in Hext.
  assert (snd (splitext (basename file_path)) = "") as Hnone.
  { apply dot_shape_nil. by rewrite <- Hlow, Hext. }
  pose proof (splitext_none_shape _ (basename_no_sep file_path) Hnone)
    as Hshape.
  rewrite <- Hlow in Hshape.
  table_cases Hbare;
    match goal with
    | H : _ = low (basename file_path) |- _ => rewrite <- H in *
    | H : low (basename file_path) = _ |- _ => rewrite H in *
    end;
    try (vm_compute in Hshape; discriminate Hshape);
    (split; [reflexivity | set_solver]).
Qed.

Lemma bare_filename_branch_dot_free_witness :
  rfind (lower (basename "proj/Dockerfile")) "." = -1
  ∧ lower (basename "proj/Dockerfile")
    ∈ ({[ "makefile"; "dockerfile"; "readme"; "pipfile" ]} : gset string).
Proof.
  apply (bare_filename_branch_dot_free lower "proj/Dockerfile").
  - apply lower_dot_shape.
  - vm_compute. reflexivity.
Defined.

(** C7 as stated counts [pipfile] among the entries that an extension-less
    basename cannot produce; the name [Pipfile] has an empty extension, its
    lower-cased basename is [pipfile], and the bare-filename branch accepts
    it. *)
Lemma bare_filename_branch_pipfile :
  snd (splitext (basename "Pipfile")) = ""
  ∧ lower (basename "Pipfile") = "pipfile"
  ∧ (lower (snd (splitext (basename "Pipfile"))) ∉ TARGET_EXTENSIONS)
  ∧ bare_filename_branch "Pipfile" = true
  ∧ is_target_file "Pipfile" = true.
Proof.
  split; [|split; [|split; [|split]]];
    first [by_compute_not | vm_compute; reflexivity].
Qed.

(** C9.  A file whose basename is a target extension, a single leading dot
    followed by dot-free text such as [.env], [.md] or [.txt], has an empty
    extension, its basename is not a bare-filename target, and it is
    rejected. *)
Theorem is_target_file_bare_extension file_path :
  basename file_path ∈ TARGET_EXTENSIONS →
  snd (splitext (basename file_path)) = ""
  ∧ (lower (basename file_path) ∉ TARGET_FILENAMES)
  ∧ is_target_file file_path = false.
Proof.
  intros H. unfold is_target_file.
  table_cases H;
    match goal with
    | E : basename file_path = _ |- _ => rewrite E
    | E : _ = basename file_path |- _ => rewrite <- E
    end;
    (split; [vm_compute; reflexivity|]);
    (split; [by_compute_not | vm_compute; reflexivity]).
Qed.

Lemma is_target_file_bare_extension_witness :
  snd (splitext (basename "conf/.env")) = ""
  ∧ (lower (basename "conf/.env") ∉ TARGET_FILENAMES)
  ∧ is_target_file "conf/.env" = false.
Proof.
  apply (is_target_file_bare_extension "conf/.env").
  by_compute.
Defined.

End classifier_claims.

(** ** The report writer *)

Module StrApp.

Lemma app_assoc (s1 s2 s3 : string) : (s1 +:+ s2) +:+ s3 = s1 +:+ (s2 +:+ s3).
Proof.
  induction s1 as [|c s1 IH]; [reflexivity|].
  change (String c ((s1 +:+ s2) +:+ s3) = String c (s1 +:+ (s2 +:+ s3))).
  by rewrite IH.
Qed.

Lemma app_nil_r (s : string) : s +:+ "" = s.
Proof.
  induction s as [|c s IH]; [reflexivity|].
  change (String c (s +:+ "") = String c s). by rewrite IH.
Qed.

Lemma app_nil_l (s : string) : "" +:+ s = s.
Proof. reflexivity. Qed.

Lemma app_cons c (s1 s2 : string) : String c s1 +:+ s2 = String c (s1 +:+ s2).
Proof. reflexivity. Qed.

End StrApp.

Section report_claims.
Variable read_text : string → string + string.
Variable root_path : string.

Lemma write_file_app f rel_path :
  write_file read_text root_path f rel_path
  = f +:+ write_file read_text root_path "" rel_path.
Proof. unfold write_file, write. by rewrite !StrApp.app_assoc. Qed.

Lemma fold_write_file_app paths f :
  fold_left (write_file read_text root_path) paths f
  = f +:+ file_sections read_text root_path paths.
Proof.
  unfold file_sections. revert f.
  induction paths as [|p paths IH]; intros f; simpl.
  - by rewrite StrApp.app_nil_r.
  - rewrite IH, (IH (write_file _ _ "" p)), write_file_app.
    by rewrite StrApp.app_assoc.
Qed.

Lemma file_sections_cons p paths :
  file_sections read_text root_path (p :: paths)
  = write_file read_text root_path "" p
    +:+ file_sections read_text root_path paths.
Proof. unfold file_sections at 1. simpl. apply fold_write_file_app. Qed.

Lemma file_sections_app paths1 paths2 :
  file_sections read_text root_path (paths1 ++ paths2)
  = file_sections read_text root_path paths1
    +:+ file_sections read_text root_path paths2.
Proof.
  unfold file_sections at 1 2. rewrite fold_left_app.
  apply fold_write_file_app.
Qed.

Lemma write_report_sections tree paths :
  write_report read_text root_path tree paths
  = write_report read_text root_path tree []
    +:+ file_sections read_text root_path paths.
Proof. unfold write_report. simpl fold_left. apply fold_write_file_app. Qed.

(** Every file of the list gets its delimiter line, then its content or
    the placeholder, then a newline. *)
Lemma file_section_shape rel_path :
  file_sections read_text root_path [rel_path]
  = delimiter_line rel_path
    +:+ match read_text (os_path.join root_path rel_path) with
        | inl content => content
        | inr e => read_error_placeholder e
        end
    +:+ Str.nl.
Proof.
  unfold file_sections. cbn [fold_left]. unfold write_file, write.
  rewrite StrApp.app_nil_l, StrApp.app_assoc. reflexivity.
Qed.

(** C8.  When reading a file of the list raises an error, the output holds
    what was written for the files before it, then the delimiter line of the
    path, then the placeholder with the text of the exception, and then the
    section of every later file: each with its own delimiter line, content
    or placeholder, and newline. *)
Theorem write_report_read_error tree before rel_path after e :
  read_text (os_path.join root_path rel_path) = inr e →
  write_report read_text root_path tree (before ++ rel_path :: after)
  = write_report read_text root_path tree before
    +:+ delimiter_line rel_path
    +:+ read_error_placeholder e
    +:+ Str.nl
    +:+ file_sections read_text root_path after
  ∧ ∀ before' later after',
      after = before' ++ later :: after' →
      file_sections read_text root_path after
      = file_sections read_text root_path before'
        +:+ delimiter_line later
        +:+ match read_text (os_path.join root_path later) with
            | inl content => content
            | inr e' => read_error_placeholder e'
            end
        +:+ Str.nl
        +:+ file_sections read_text root_path after'.
Proof.
  intros Hread. split.
  - rewrite (write_report_sections tree (before ++ _)).
    rewrite (write_report_sections tree before).
    rewrite file_sections_app, file_sections_cons.
    change (write_file read_text root_path "" rel_path)
      with (file_sections read_text root_path [rel_path]).
    rewrite file_section_shape, Hread.
    by rewrite !StrApp.app_assoc.
  - intros before' later after' ->.
    rewrite file_sections_app, file_sections_cons.
    change (write_file read_text root_path "" later)
      with (file_sections read_text root_path [later]).
    rewrite file_section_shape.
    by rewrite !StrApp.app_assoc.
Qed.

End report_claims.

(** ** Paths below a root *)

Module PathFacts.
Import Str StrFacts StrApp os_path os_path_facts.

Lemma split_not_nil s ch : split s ch ≠ [].
Proof.
  destruct s as [|c s]; simpl; [done|].
  destruct (Ascii.eqb c ch); [done|]. by destruct (split s ch).
Qed.

Lemma split_app_sep a b ch :
  split (a +:+ String ch b) ch = split a ch ++ split b ch.
Proof.
  induction a as [|c a IH].
  - simpl. by rewrite Ascii.eqb_refl.
  - rewrite app_cons. simpl. rewrite IH.
    destruct (Ascii.eqb c ch); [done|].
    pose proof (split_not_nil a ch). by destruct (split a ch).
Qed.

Lemma split_no_sep n : rfind n sep = -1 → split n sep = [n].
Proof.
  induction n as [|c n IH]; intros Hn; [done|].
  destruct (no_sep_cons _ _ Hn) as [Hc Hn'].
  simpl. rewrite Hc, IH by done. reflexivity.
Qed.

Lemma lstrip_no_sep n : rfind n sep = -1 → lstrip n sep = n.
Proof.
  destruct n as [|c n]; intros Hn; [done|].
  destruct (no_sep_cons _ _ Hn) as [Hc _]. simpl. by rewrite Hc.
Qed.

Lemma lstrip_app a b ch :
  lstrip a ch ≠ "" → lstrip (a +:+ b) ch = lstrip a ch +:+ b.
Proof.
  induction a as [|c a IH]; intros Ha; [done|].
  rewrite app_cons. simpl in *. destruct (Ascii.eqb c ch); [by apply IH|done].
Qed.

Lemma lstrip_app_nil a b ch :
  lstrip a ch = "" → lstrip (a +:+ b) ch = lstrip b ch.
Proof.
  induction a as [|c a IH]; intros Ha; [done|].
  rewrite app_cons. simpl in *. destruct (Ascii.eqb c ch); [by apply IH|done].
Qed.

Lemma endswith_cons c s ch :
  s ≠ "" → endswith (String c s) ch = endswith s ch.
Proof. by destruct s. Qed.

Lemma endswith_app a b ch :
  b ≠ "" → endswith (a +:+ b) ch = endswith b ch.
Proof.
  intros Hb. induction a as [|c a IH]; [done|].
  rewrite app_cons, endswith_cons; [done|]. by destruct a, b.
Qed.

Lemma endswith_no_sep n : rfind n sep = -1 → endswith n sep = false.
Proof.
  induction n as [|c n IH]; intros Hn; [done|].
  destruct (no_sep_cons _ _ Hn) as [Hc Hn'].
  destruct n as [|c' n]; [done|]. rewrite endswith_cons by done. by apply IH.
Qed.

Lemma lstrip_nil_endswith a ch :
  a ≠ "" → lstrip a ch = "" → endswith a ch = true.
Proof.
  induction a as [|c a IH]; intros Ha Hs; [done|].
  simpl in Hs. destruct (Ascii.eqb c ch) eqn:Hc; [|done].
  destruct a as [|c' a]; [done|]. rewrite endswith_cons by done. by apply IH.
Qed.

Lemma startswith_no_sep n :
  rfind n sep = -1 → startswith n (String sep "") = false.
Proof.
  destruct n as [|c n]; intros Hn; [done|].
  destruct (no_sep_cons _ _ Hn) as [Hc _].
  unfold startswith.
  change (String.prefix (String sep "") (String c n))
    with (match ascii_dec sep c with
          | left _ => String.prefix "" n
          | right _ => false
          end).
  destruct (ascii_dec sep c) as [<-|]; [|done].
  by rewrite Ascii.eqb_refl in Hc.
Qed.

(** Valid names. *)
Lemma valid_name_spec n :
  valid_name n = true → n ≠ "" ∧ rfind n sep = -1.
Proof.
  unfold valid_name. intros [[[Hne Hsep]%andb_true_iff _]%andb_true_iff _]%andb_true_iff.
  split; [|lia]. intros ->. done.
Qed.

Lemma abspath_result_tidy p : abspath_result p = true → tidy p.
Proof.
  unfold abspath_result, tidy.
  intros [_ [H%String.eqb_eq|H%negb_true_iff]%orb_true_iff]%andb_true_iff; auto.
Qed.

Lemma join_valid a n :
  valid_name n = true →
  join a n = if String.eqb a "" || endswith a sep then a +:+ n
             else a +:+ String sep n.
Proof.
  intros [_ Hn]%valid_name_spec. unfold join.
  by rewrite startswith_no_sep.
Qed.

Lemma join_tidy a n : valid_name n = true → tidy (join a n).
Proof.
  intros Hv. rewrite join_valid by done.
  destruct (valid_name_spec _ Hv) as [Hne Hn]. right.
  destruct (_ || _).
  - rewrite endswith_app by done. by apply endswith_no_sep.
  - rewrite endswith_app, endswith_cons by done. by apply endswith_no_sep.
Qed.

Lemma path_list_valid n : valid_name n = true → path_list n = [n].
Proof.
  intros [Hne Hn]%valid_name_spec. unfold path_list.
  rewrite lstrip_no_sep by done.
  rewrite (proj2 (String.eqb_neq n "")) by done. by apply split_no_sep.
Qed.

Lemma path_list_join a n :
  tidy a → valid_name n = true → path_list (join a n) = path_list a ++ [n].
Proof.
  intros Ha Hv. rewrite join_valid by done.
  destruct (valid_name_spec _ Hv) as [Hne Hn].
  destruct (String.eqb_spec a "") as [->|Ha'].
  { simpl. by apply path_list_valid. }
  simpl. destruct (endswith a sep) eqn:Hend.
  - destruct Ha as [Ha|Ha]; [|congruence].
    unfold path_list. rewrite lstrip_app_nil, Ha by done. simpl.
    by apply path_list_valid.
  - assert (lstrip a sep ≠ "") as Hstrip.
    { intros Hs. apply lstrip_nil_endswith in Hs; congruence. }
    unfold path_list. rewrite lstrip_app by done.
    rewrite (proj2 (String.eqb_neq (lstrip a sep) "")) by done.
    rewrite split_app_sep, (split_no_sep n) by done.
    destruct (String.eqb_spec (lstrip a sep +:+ String sep n) "") as [E|_]; [|done].
    destruct (lstrip a sep); done.
Qed.

Lemma dir_path_snoc root_path names n :
  dir_path root_path (names ++ [n]) = join (dir_path root_path names) n.
Proof. unfold dir_path. by rewrite fold_left_app. Qed.

Lemma dir_path_tidy root_path names :
  tidy root_path → Forall (λ n, valid_name n = true) names →
  tidy (dir_path root_path names).
Proof.
  intros Hroot. induction names as [|n names IH] using rev_ind; [done|].
  intros [_ [Hn _]%Forall_cons]%Forall_app.
  rewrite dir_path_snoc. by apply join_tidy.
Qed.

Lemma path_list_dir_path root_path names :
  tidy root_path → Forall (λ n, valid_name n = true) names →
  path_list (dir_path root_path names) = path_list root_path ++ names.
Proof.
  intros Hroot. induction names as [|n names IH] using rev_ind.
  - intros _. by rewrite List.app_nil_r.
  - intros [Hnames [Hn _]%Forall_cons]%Forall_app.
    rewrite dir_path_snoc, path_list_join, IH, (assoc_L (++));
      auto using dir_path_tidy.
Qed.

Lemma commonprefix_length_app l r : commonprefix_length l (l ++ r) = length l.
Proof.
  induction l as [|x l IH]; [by destruct r|].
  simpl. by rewrite String.eqb_refl, IH.
Qed.

(** The relative path of a file that lies below the root. *)
Lemma relpath_below root_path names f :
  tidy root_path →
  Forall (λ n, valid_name n = true) names →
  valid_name f = true →
  relpath (join (dir_path root_path names) f) root_path
  = Str.join "/" (names ++ [f]).
Proof.
  intros Hroot Hnames Hf. unfold relpath.
  rewrite <- dir_path_snoc, path_list_dir_path; auto.
  2:{ apply Forall_app; auto. }
  rewrite commonprefix_length_app, Nat.sub_diag, drop_app_length. simpl.
  by destruct (names ++ [f]) eqn:E; [destruct names|].
Qed.

Lemma join_cons_valid n names :
  names ≠ [] → Str.join "/" (n :: names) = n +:+ String sep (Str.join "/" names).
Proof. by destruct names. Qed.

(** Splitting a relative path gives its names back. *)
Lemma split_join names :
  names ≠ [] → Forall (λ n, valid_name n = true) names →
  split (Str.join "/" names) sep = names.
Proof.
  intros Hne Hnames. induction Hnames as [|n names Hn Hnames IH]; [done|].
  destruct (valid_name_spec _ Hn) as [_ Hsep].
  destruct names as [|n' names].
  - by apply split_no_sep.
  - rewrite join_cons_valid by done.
    rewrite split_app_sep, (split_no_sep n), IH by done. reflexivity.
Qed.

(** The basename of a joined path is the name that was joined. *)
Lemma rfind_app_no_sep a n :
  rfind n sep = -1 → rfind (a +:+ String sep n) sep = Z.of_nat (String.length a).
Proof.
  intros Hn. induction a as [|c a IH].
  - simpl. rewrite Hn. reflexivity.
  - rewrite app_cons, rfind_cons, IH. simpl String.length.
    replace (0 <=? Z.of_nat (String.length a)) with true by lia. lia.
Qed.

Lemma drop_app_length_str a b : drop (String.length a) (a +:+ b) = b.
Proof. induction a as [|c a IH]; [done|]. exact IH. Qed.

Lemma basename_app_sep a n :
  rfind n sep = -1 → basename (a +:+ String sep n) = n.
Proof.
  intros Hn. unfold basename, slice_from. rewrite rfind_app_no_sep by done.
  replace (Z.to_nat (Z.of_nat (String.length a) + 1))
    with (String.length (a +:+ String sep "")).
  - rewrite <- (drop_app_length_str (a +:+ String sep "") n) at 2.
    by rewrite app_assoc.
  - induction a as [|c a IH]; [done|]. rewrite app_cons. simpl String.length. lia.
Qed.

Lemma endswith_snoc a ch :
  endswith a ch = true → ∃ a', a = a' +:+ String ch "".
Proof.
  induction a as [|c a IH]; [done|].
  destruct a as [|c' a].
  - simpl. intros ->%Ascii.eqb_eq. by exists "".
  - rewrite endswith_cons by done. intros [a' ->]%IH. by exists (String c a').
Qed.

Lemma basename_join a n : valid_name n = true → basename (join a n) = n.
Proof.
  intros Hv. rewrite join_valid by done.
  destruct (valid_name_spec _ Hv) as [Hne Hn].
  destruct (String.eqb_spec a "") as [->|Ha'].
  { simpl. by apply basename_idemp. }
  simpl. destruct (endswith a sep) eqn:Hend.
  - apply endswith_snoc in Hend as [a' ->].
    rewrite app_assoc. by apply basename_app_sep.
  - by apply basename_app_sep.
Qed.

End PathFacts.

(** ** Directory trees *)

Module TreeFacts.
Import PathFacts.

(** Induction over a tree, with the hypothesis for every child. *)
Lemma entry_induction (P : entry → Prop) :
  (∀ name, P (File name)) →
  (∀ name listable children,
     Forall P children → P (Dir name listable children)) →
  ∀ e, P e.
Proof.
  intros Hfile Hdir.
  fix IH 1. intros [name|name listable children].
  - apply Hfile.
  - apply Hdir. induction children as [|c children IHc]; constructor.
    + apply IH.
    + exact IHc.
Qed.

Lemma lookup_child_cons {A} c cs item (k : entry → A) missing :
  lookup_child (c :: cs) item k missing
  = if String.eqb (entry_name c) item then k c
    else lookup_child cs item k missing.
Proof. reflexivity. Qed.

(** A name of the listing leads to an entry of the directory. *)
Lemma lookup_child_listed {A} cs item (k : entry → A) missing :
  item ∈ entry_name <$> cs →
  ∃ c, c ∈ cs ∧ entry_name c = item ∧ lookup_child cs item k missing = k c.
Proof.
  induction cs as [|c cs IH]; [by intros ?%elem_of_nil|].
  rewrite lookup_child_cons. intros Hin.
  destruct (String.eqb_spec (entry_name c) item) as [Heq|Hne].
  - exists c. split; [left|done].
  - rewrite fmap_cons in Hin. apply elem_of_cons in Hin as [Hin|Hin]; [done|].
    destruct (IH Hin) as (c' & ? & ? & ?). exists c'. split; [by right|done].
Qed.

(** With distinct names, it leads to the entry of that name. *)
Lemma lookup_child_found {A} cs c (k : entry → A) missing :
  NoDup (entry_name <$> cs) → c ∈ cs →
  lookup_child cs (entry_name c) k missing = k c.
Proof.
  induction cs as [|c' cs IH]; [by intros _ ?%elem_of_nil|].
  rewrite fmap_cons, lookup_child_cons.
  intros [Hnotin Hnodup]%NoDup_cons [->|Hin]%elem_of_cons.
  - by rewrite String.eqb_refl.
  - destruct (String.eqb_spec (entry_name c') (entry_name c)) as [Heq|_]; [|auto].
    destruct Hnotin. rewrite Heq. by apply list_elem_of_fmap_2.
Qed.

Lemma lookup_child_fmap {A B} (f : A → B) cs item k missing :
  f (lookup_child cs item k missing)
  = lookup_child cs item (λ c, f (k c)) (f missing).
Proof.
  induction cs as [|c cs IH]; [done|].
  rewrite !lookup_child_cons. by destruct (String.eqb _ _).
Qed.

Lemma lookup_child_ext {A} cs item (k1 k2 : entry → A) missing :
  (∀ c, c ∈ cs → entry_name c = item → k1 c = k2 c) →
  lookup_child cs item k1 missing = lookup_child cs item k2 missing.
Proof.
  induction cs as [|c cs IH]; intros Hk; [done|].
  rewrite !lookup_child_cons.
  destruct (String.eqb_spec (entry_name c) item) as [Heq|_].
  - apply Hk; [left|done].
  - apply IH. intros c' Hc'. apply Hk. by right.
Qed.

(** Looking up among entries that were changed without changing names. *)
Lemma lookup_child_renamed {A} (f : entry → entry) cs item (k : entry → A) missing :
  (∀ c, entry_name (f c) = entry_name c) →
  lookup_child (f <$> cs) item k missing
  = lookup_child cs item (λ c, k (f c)) missing.
Proof.
  intros Hf. induction cs as [|c cs IH]; [done|].
  rewrite fmap_cons, !lookup_child_cons, Hf, IH. reflexivity.
Qed.

Lemma names_filter_renamed (f : entry → entry) (b : bool) (cs : list entry) :
  (∀ c, entry_name (f c) = entry_name c) →
  (∀ c, isdir (f c) = isdir c) →
  entry_name <$> filter (λ c, isdir c = b) (f <$> cs)
  = entry_name <$> filter (λ c, isdir c = b) cs.
Proof.
  intros Hname Hdir. induction cs as [|c cs IH]; [done|].
  rewrite fmap_cons, !filter_cons, Hdir.
  destruct (decide (isdir c = b)); [|done].
  by rewrite !fmap_cons, Hname, IH.
Qed.

Lemma without_ignored_content_name c :
  entry_name (without_ignored_content c) = entry_name c.
Proof.
  destruct c as [|name listable children]; [done|].
  simpl. by destruct (is_ignore_dir name).
Qed.

Lemma without_ignored_content_isdir c :
  isdir (without_ignored_content c) = isdir c.
Proof.
  destruct c as [|name listable children]; [done|].
  simpl. by destruct (is_ignore_dir name).
Qed.

Lemma without_ignored_content_kept c :
  is_ignore_dir (entry_name c) = false →
  without_ignored_content c = emptied_below c.
Proof. destruct c as [|name listable children]; [done|]. simpl. by intros ->. Qed.

Lemma names_without_ignored_content (cs : list entry) :
  entry_name <$> (without_ignored_content <$> cs) = entry_name <$> cs.
Proof.
  rewrite <- list_fmap_compose. apply list_fmap_ext.
  intros _ c _. apply without_ignored_content_name.
Qed.

Lemma wf_entry_dir name listable children :
  wf_entry (Dir name listable children) = true →
  NoDup (entry_name <$> children)
  ∧ ∀ c, c ∈ children → valid_name (entry_name c) = true ∧ wf_entry c = true.
Proof.
  simpl. intros [Hall Hnodup%bool_decide_eq_true]%andb_true_iff.
  split; [done|]. intros c Hc.
  rewrite forallb_forall in Hall. apply andb_true_iff, Hall.
  by apply list_elem_of_In.
Qed.

Lemma not_isdir_file c : isdir c = false → c = File (entry_name c).
Proof. by destruct c. Qed.

Lemma sorted_elem_of l x : x ∈ sorted l ↔ x ∈ l.
Proof. unfold sorted. by rewrite merge_sort_Permutation. Qed.

(** Reaching a directory, then one of its directories. *)
Lemma walks_to_snoc root names name children c :
  walks_to root names (Dir name true children) →
  c ∈ children → isdir c = true → is_ignore_dir (entry_name c) = false →
  walks_to root (names ++ [entry_name c]) c.
Proof.
  intros Hwalk Hc Hdir Hign.
  remember (Dir name true children) as d eqn:Hd.
  induction Hwalk as [d|name' children' c' names d Hc' Hdir' Hign' Hwalk IH].
  - subst d. simpl. econstructor; [done..|constructor].
  - simpl. econstructor; [done..|]. by apply IH.
Qed.

Lemma walks_to_not_ignored root names d :
  walks_to root names d → Forall (λ n, is_ignore_dir n = false) names.
Proof. induction 1; constructor; auto. Qed.

Lemma walks_to_valid root names d :
  wf_entry root = true → walks_to root names d →
  Forall (λ n, valid_name n = true) names ∧ wf_entry d = true.
Proof.
  intros Hwf Hwalk.
  induction Hwalk as [d|name children c names d Hc Hdir Hign Hwalk IH]; [done|].
  destruct (wf_entry_dir _ _ _ Hwf) as [_ Hchildren].
  destruct (Hchildren c Hc) as [Hvalid Hwfc].
  destruct (IH Hwfc). split; [by constructor|done].
Qed.

End TreeFacts.

(** ** Tree rendering *)

Module RenderFacts.
Import PathFacts TreeFacts.

Lemma elem_of_join_imap {A B} (f : nat → A → list B) (l : list A) (y : B) :
  y ∈ mjoin (imap f l) ↔ ∃ i x, l !! i = Some x ∧ y ∈ f i x.
Proof.
  rewrite list_elem_of_join. split.
  - intros (ys & Hy & (i & x & -> & Hx)%elem_of_lookup_imap). eauto.
  - intros (i & x & Hx & Hy). exists (f i x). split; [done|].
    apply elem_of_lookup_imap. eauto.
Qed.

Lemma fmap_join {A B} (f : A → B) (ls : list (list A)) :
  f <$> mjoin ls = mjoin (fmap f <$> ls).
Proof.
  induction ls as [|l ls IH]; [done|].
  change (f <$> (l ++ mjoin ls) = (f <$> l) ++ mjoin (fmap f <$> ls)).
  by rewrite fmap_app, IH.
Qed.

(** The texts of the trace are the lines of [recurse_dir]. *)
Lemma recurse_dir_trace_text current :
  ∀ parents prefix,
    line_text <$> recurse_dir_trace current parents prefix
    = recurse_dir current prefix.
Proof.
  induction current as [name|name listable children IH] using entry_induction;
    intros parents prefix; [done|].
  destruct listable; [|done].
  cbn [recurse_dir_trace recurse_dir].
  rewrite fmap_join, fmap_imap. f_equal.
  apply imap_ext. intros i item _. cbn beta zeta. unfold compose.
  rewrite (lookup_child_fmap (fmap line_text)).
  apply lookup_child_ext. intros c Hc _.
  rewrite Forall_forall in IH.
  destruct (isdir c && is_ignore_dir item); [done|].
  rewrite fmap_cons. cbn [line_text]. f_equal.
  destruct (isdir c); [|done]. by apply IH.
Qed.

(** Every line of the trace is the line of an entry that is not below an
    ignored directory, and that is not an ignored directory. *)
Lemma recurse_dir_trace_ok root current :
  ∀ parents prefix,
    walks_to root parents current →
    Forall (line_ok root) (recurse_dir_trace current parents prefix).
Proof.
  induction current as [name|name listable children IH] using entry_induction;
    intros parents prefix Hwalk; [by constructor|].
  destruct listable; [|by constructor].
  cbn [recurse_dir_trace]. apply Forall_forall. intros l.
  rewrite elem_of_join_imap. intros (i & item & Hitem & Hl).
  apply list_elem_of_lookup_2 in Hitem. rewrite sorted_elem_of in Hitem.
  revert Hl. cbn beta zeta.
  match goal with
  | |- context [lookup_child children item ?k ?m] =>
      destruct (lookup_child_listed children item k m Hitem)
        as (c & Hc & <- & ->)
  end.
  destruct (isdir c && is_ignore_dir (entry_name c)) eqn:Hskip;
    [by intros ?%elem_of_nil|].
  intros [->|Hl]%elem_of_cons.
  - split; [by eapply walks_to_not_ignored|]. split; [|by eauto].
    cbn [line_entry]. intros Hdir. by rewrite Hdir in Hskip.
  - destruct (isdir c) eqn:Hdir; [|by apply elem_of_nil in Hl].
    rewrite Forall_forall in IH. simpl in Hskip.
    specialize
      (IH c Hc (parents ++ [entry_name c])
          (prefix +:+ deeper
             (bool_decide
                (i = (length (sorted (entry_name <$> children)) - 1)%nat)))).
    rewrite Forall_forall in IH. apply IH; [|done].
    by eapply walks_to_snoc.
Qed.

(** What lies below an ignored directory does not show in the rendering. *)
Lemma recurse_dir_emptied current :
  ∀ prefix, recurse_dir (emptied_below current) prefix = recurse_dir current prefix.
Proof.
  induction current as [name|name listable children IH] using entry_induction;
    intros prefix; [done|].
  destruct listable; [|done].
  cbn [emptied_below recurse_dir]. rewrite names_without_ignored_content.
  f_equal. apply imap_ext. intros i item _. cbn beta zeta.
  rewrite lookup_child_renamed by apply without_ignored_content_name.
  apply lookup_child_ext. intros c Hc <-.
  rewrite without_ignored_content_isdir.
  destruct (isdir c) eqn:Hdir; [|done].
  destruct (is_ignore_dir (entry_name c)) eqn:Hign; [done|].
  cbn [andb]. f_equal. rewrite without_ignored_content_kept by done.
  rewrite Forall_forall in IH. by apply IH.
Qed.

End RenderFacts.

(** ** Target collection *)

Module WalkFacts.
Import PathFacts TreeFacts os_path_facts.

(** [is_target_file] on a joined path looks at the name that was joined. *)
Lemma is_target_file_join dirpath filename :
  valid_name filename = true →
  is_target_file (os_path.join dirpath filename) = is_target_file filename.
Proof.
  intros Hvalid.
  rewrite <- (is_target_file_basename (os_path.join dirpath filename)).
  by rewrite basename_join.
Qed.

Lemma elem_of_names_filter (P : entry → Prop) `{∀ c, Decision (P c)}
    (children : list entry) (name : string) :
  name ∈ entry_name <$> filter P children
  ↔ ∃ c, c ∈ children ∧ P c ∧ entry_name c = name.
Proof.
  rewrite list_elem_of_fmap. split.
  - intros (c & -> & [HP Hc]%list_elem_of_filter). eauto.
  - intros (c & Hc & HP & <-). exists c. by rewrite list_elem_of_filter.
Qed.

Lemma os_walk_dir {A} (body : string → list string → list string → list string * list A)
    top name children :
  os_walk body top (Dir name true children)
  = (body top (entry_name <$> filter (λ c, isdir c = true) children)
              (entry_name <$> filter (λ c, isdir c = false) children)).2
    ++ mjoin ((λ dirname,
                 lookup_child children dirname
                   (λ c, os_walk body (os_path.join top dirname) c) [])
              <$> (body top (entry_name <$> filter (λ c, isdir c = true) children)
                            (entry_name <$> filter (λ c, isdir c = false) children)).1).
Proof. cbn [os_walk]. by destruct (body _ _ _). Qed.

Lemma os_walk_collect root_path d :
  tidy root_path →
  ∀ pre p,
    Forall (λ n, valid_name n = true) pre →
    wf_entry d = true →
    p ∈ os_walk (collect_round root_path) (dir_path root_path pre) d
    ↔ collected d pre p.
Proof.
  intros Hroot.
  induction d as [name|name listable children IH] using entry_induction;
    intros pre p Hpre Hwf.
  { split; [by intros ?%elem_of_nil|].
    intros (names & n & cs & f & Hwalk & _). inversion Hwalk. }
  destruct listable.
  2:{ split; [by intros ?%elem_of_nil|].
      intros (names & n & cs & f & Hwalk & _). inversion Hwalk. }
  destruct (wf_entry_dir _ _ _ Hwf) as [Hnodup Hchildren].
  rewrite Forall_forall in IH.
  rewrite os_walk_dir. cbn [collect_round fst snd].
  rewrite elem_of_app, list_elem_of_omap, list_elem_of_join. split.
  - intros [(f & Hf & Htarget)|(l & Hp & Hl)].
    + apply elem_of_names_filter in Hf as (c & Hc & Hfile & <-).
      destruct (Hchildren c Hc) as [Hvalid _].
      rewrite is_target_file_join in Htarget by done.
      destruct (is_target_file (entry_name c)) eqn:Htarget'; [|done].
      injection Htarget as <-. rewrite relpath_below by done.
      exists [], name, children, (entry_name c).
      split; [constructor|]. rewrite <- not_isdir_file by done. done.
    + apply list_elem_of_fmap in Hl as (dirname & -> & Hdirname).
      apply list_elem_of_filter in Hdirname as [Hkeep Hdirname].
      apply elem_of_names_filter in Hdirname as (c & Hc & Hdir & <-).
      destruct (Hchildren c Hc) as [Hvalid Hwfc].
      rewrite lookup_child_found in Hp by done.
      rewrite <- dir_path_snoc in Hp.
      apply IH in Hp; [|done| |done].
      2:{ apply Forall_app. split; [done|by constructor]. }
      destruct Hp as (names & n & cs & f & Hwalk & Hf & Htarget & ->).
      exists (entry_name c :: names), n, cs, f.
      split; [by econstructor|]. split; [done|]. split; [done|].
      by rewrite <- (assoc_L (++)).
  - intros (names & n & cs & f & Hwalk & Hf & Htarget & ->).
    inversion Hwalk as [|? ? c names' ? Hc Hdir Hkeep Hwalk']; subst.
    + left. exists f.
      destruct (Hchildren _ Hf) as [Hvalid _]. cbn [entry_name] in Hvalid.
      split.
      * apply elem_of_names_filter. by exists (File f).
      * rewrite is_target_file_join, Htarget, relpath_below by done. done.
    + right. destruct (Hchildren c Hc) as [Hvalid Hwfc].
      exists (os_walk (collect_round root_path)
                (os_path.join (dir_path root_path pre) (entry_name c)) c).
      split.
      * rewrite <- dir_path_snoc. apply IH; [done| |done|].
        { apply Forall_app. split; [done|by constructor]. }
        exists names', n, cs, f. rewrite <- (assoc_L (++)). done.
      * apply list_elem_of_fmap. exists (entry_name c).
        split; [by rewrite lookup_child_found|].
        apply list_elem_of_filter. split; [done|].
        apply elem_of_names_filter. by exists c.
Qed.

(** What lies below an ignored directory does not show in the walk. *)
Lemma os_walk_emptied root_path d :
  ∀ top,
    os_walk (collect_round root_path) top (emptied_below d)
    = os_walk (collect_round root_path) top d.
Proof.
  induction d as [name|name listable children IH] using entry_induction;
    intros top; [done|].
  destruct listable; [|done].
  cbn [emptied_below]. rewrite !os_walk_dir.
  rewrite !names_filter_renamed
    by auto using without_ignored_content_name, without_ignored_content_isdir.
  f_equal. f_equal. cbn [collect_round fst].
  apply list_fmap_ext. intros i dirname Hdirname.
  apply list_elem_of_lookup_2 in Hdirname.
  apply list_elem_of_filter in Hdirname as [Hkeep _].
  rewrite lookup_child_renamed by apply without_ignored_content_name.
  apply lookup_child_ext. intros c Hc Hname. rewrite <- Hname in *.
  rewrite without_ignored_content_kept by done.
  rewrite Forall_forall in IH. by apply IH.
Qed.

(** The paths that [collect_files] returns. *)
Lemma collect_files_spec root_path root p :
  abspath_result root_path = true →
  wf_entry root = true →
  p ∈ collect_files root_path root ↔ collected root [] p.
Proof.
  intros Hroot%abspath_result_tidy Hwf.
  unfold collect_files. rewrite sorted_elem_of.
  by apply (os_walk_collect root_path root Hroot []).
Qed.

End WalkFacts.

(** ** The claims on the directory walker *)

Section walker_claims.
Import PathFacts TreeFacts RenderFacts WalkFacts.

(** C3, at a directory whose sorted listing ends with an ignored directory:
    the entries are listed in sorted order, but the last rendered entry,
    [lib], is drawn with the connector of an earlier entry, and the entry
    below it is prefixed as below an ancestor that is not the last. *)
Lemma get_directory_structure_trailing_ignored :
  get_directory_structure project_with_node_modules
  = Str.join Str.nl [ "proj"; "├── a.py"; "├── lib"; "│   └── m.py" ].
Proof. vm_compute. reflexivity. Qed.

(** C4 (as amended).  For every directory strictly below the scan root whose
    lower-cased name starts with an ignore prefix: no line of the rendered
    tree stands for that directory or for an entry below it; no path that
    [collect_files] returns has its name as a directory component; and both
    outputs are what they are for the tree in which nothing lies below such
    a directory. *)
Theorem ignored_directories_absent root_path root :
  abspath_result root_path = true →
  wf_entry root = true →
  (line_text <$> recurse_dir_trace root [] "" = recurse_dir root ""
   ∧ Forall (line_ok root) (recurse_dir_trace root [] ""))
  ∧ (∀ p, p ∈ collect_files root_path root →
      Forall (λ n, is_ignore_dir n = false)
             (removelast (Str.split p os_path.sep))
      ∧ ∃ names name children f,
          walks_to root names (Dir name true children)
          ∧ File f ∈ children
          ∧ Str.split p os_path.sep = names ++ [f])
  ∧ (get_directory_structure (emptied_below root) = get_directory_structure root
     ∧ collect_files root_path (emptied_below root) = collect_files root_path root).
Proof.
  intros Hroot Hwf. split; [|split].
  - split; [apply recurse_dir_trace_text|].
    apply recurse_dir_trace_ok. constructor.
  - intros p (names & name & children & f & Hwalk & Hf & _ & ->)%collect_files_spec;
      [|done..].
    destruct (walks_to_valid _ _ _ Hwf Hwalk) as [Hnames Hwfd].
    destruct (wf_entry_dir _ _ _ Hwfd) as [_ Hchildren].
    destruct (Hchildren _ Hf) as [Hvalid _]. cbn [entry_name] in Hvalid.
    assert (Str.split (Str.join "/" ([] ++ names ++ [f])) os_path.sep
            = names ++ [f]) as Hsplit.
    { apply split_join; [by destruct names|].
      apply Forall_app. split; [done|by constructor]. }
    rewrite Hsplit. split; [|by eauto 10].
    rewrite removelast_last. by eapply walks_to_not_ignored.
  - unfold get_directory_structure, collect_files.
    rewrite recurse_dir_emptied, os_walk_emptied. by destruct root.
Qed.

Lemma ignored_directories_absent_witness :
  (line_text <$> recurse_dir_trace project_with_git [] ""
     = recurse_dir project_with_git ""
   ∧ Forall (line_ok project_with_git) (recurse_dir_trace project_with_git [] ""))
  ∧ (∀ p, p ∈ collect_files "/srv/proj" project_with_git →
      Forall (λ n, is_ignore_dir n = false)
             (removelast (Str.split p os_path.sep))
      ∧ ∃ names name children f,
          walks_to project_with_git names (Dir name true children)
          ∧ File f ∈ children
          ∧ Str.split p os_path.sep = names ++ [f])
  ∧ (get_directory_structure (emptied_below project_with_git)
       = get_directory_structure project_with_git
     ∧ collect_files "/srv/proj" (emptied_below project_with_git)
       = collect_files "/srv/proj" project_with_git).
Proof.
  apply (ignored_directories_absent "/srv/proj" project_with_git);
    vm_compute; reflexivity.
Defined.

(** C4 as stated fails for the scan root: a root called [node_modules] is
    rendered and walked, and the file below it appears in both outputs. *)
Lemma ignored_root_is_walked :
  is_ignore_dir (entry_name root_named_node_modules) = true
  ∧ get_directory_structure root_named_node_modules
    = Str.join Str.nl [ "node_modules"; "└── a.py" ]
  ∧ collect_files "/srv/node_modules" root_named_node_modules = [ "a.py" ].
Proof. repeat split; vm_compute; reflexivity. Qed.

(** C5.  Whatever the order in which the file system yields the entries of
    the directories, the list that [collect_files] returns is sorted
    ascending by string comparison; it holds the paths that the walk
    appended. *)
Theorem collect_files_sorted root_path root :
  StronglySorted String.le (collect_files root_path root)
  ∧ collect_files root_path root
    ≡ₚ os_walk (collect_round root_path) root_path root.
Proof.
  unfold collect_files, sorted. split.
  - apply StronglySorted_merge_sort; apply _.
  - apply merge_sort_Permutation.
Qed.

(** C10 (as amended).  The ignore-prefix rule is applied to directory names
    only: every regular file that lies in a directory which the walk
    reaches, and that [is_target_file] accepts, has its relative path in the
    returned list, also when its own name starts with an ignore prefix. *)
Theorem collect_files_keeps_files root_path root names name children f :
  abspath_result root_path = true →
  wf_entry root = true →
  walks_to root names (Dir name true children) →
  File f ∈ children →
  is_target_file (os_path.join (dir_path root_path names) f) = true →
  Str.join "/" (names ++ [f]) ∈ collect_files root_path root.
Proof.
  intros Hroot Hwf Hwalk Hf Htarget.
  apply collect_files_spec; [done..|].
  destruct (walks_to_valid _ _ _ Hwf Hwalk) as [_ Hwfd].
  destruct (wf_entry_dir _ _ _ Hwfd) as [_ Hchildren].
  destruct (Hchildren _ Hf) as [Hvalid _]. cbn [entry_name] in Hvalid.
  rewrite is_target_file_join in Htarget by done.
  exists names, name, children, f. done.
Qed.

Lemma collect_files_keeps_files_witness :
  is_ignore_dir "node_modules.py" = true
  ∧ Str.join "/" (["src"] ++ ["node_modules.py"])
    ∈ collect_files "/srv/proj" project_with_git.
Proof.
  split; [vm_compute; reflexivity|].
  apply (collect_files_keeps_files "/srv/proj" project_with_git
           ["src"] "src" [File "node_modules.py"; File "notes.bin"]
           "node_modules.py").
  - vm_compute. reflexivity.
  - vm_compute. reflexivity.
  - apply (walks_down "proj" _
             (Dir "src" true [File "node_modules.py"; File "notes.bin"]) [] _).
    + apply list_elem_of_here.
    + reflexivity.
    + vm_compute. reflexivity.
    + apply walks_here.
  - apply list_elem_of_here.
  - vm_compute. reflexivity.
Defined.

(** C10 as stated fails below an ignored directory: the file
    [.git/node_modules.py] is a target file whose name starts with an ignore
    prefix, and its path is not returned. *)
Lemma file_below_ignored_directory_not_collected :
  is_ignore_dir "node_modules.py" = true
  ∧ is_target_file "/srv/proj/.git/node_modules.py" = true
  ∧ collect_files "/srv/proj" project_with_git
    = [ "README"; "src/node_modules.py" ].
Proof. repeat split; vm_compute; reflexivity. Qed.

End walker_claims.

Lemma write_report_read_error_witness :
  write_report read_text_denied "/srv/proj" "proj" (["README"] ++ "a.py" :: ["b.py"])
  = write_report read_text_denied "/srv/proj" "proj" ["README"]
    +:+ delimiter_line "a.py"
    +:+ read_error_placeholder "denied"
    +:+ Str.nl
    +:+ file_sections read_text_denied "/srv/proj" ["b.py"]
  ∧ ∀ before' later after',
      ["b.py"] = before' ++ later :: after' →
      file_sections read_text_denied "/srv/proj" ["b.py"]
      = file_sections read_text_denied "/srv/proj" before'
        +:+ delimiter_line later
        +:+ match read_text_denied (os_path.join "/srv/proj" later) with
            | inl content => content
            | inr e' => read_error_placeholder e'
            end
        +:+ Str.nl
        +:+ file_sections read_text_denied "/srv/proj" after'.
Proof.
  apply (write_report_read_error read_text_denied "/srv/proj" "proj"
           ["README"] "a.py" ["b.py"] "denied").
  vm_compute. reflexivity.
Defined.

(** * Further properties of the code *)

(** ** The classifier and the directory filter *)

Module FilterFacts.
Import Str StrFacts StrApp os_path os_path_facts os_path_lower.

Lemma prefix_app p s :
  String.prefix p s = true ↔ ∃ suffix, s = p +:+ suffix.
Proof.
  revert s. induction p as [|a p IH]; intros s.
  - split; [|by destruct s]. intros _. by exists s.
  - destruct s as [|b s].
    + split; [done|]. by intros [suffix ?].
    + change (String.prefix (String a p) (String b s))
        with (match ascii_dec a b with
              | left _ => String.prefix p s
              | right _ => false
              end).
      destruct (ascii_dec a b) as [->|Hne].
      * rewrite IH. split; intros [suffix Hs]; exists suffix.
        -- by rewrite app_cons, <- Hs.
        -- rewrite app_cons in Hs. by injection Hs.
      * split; [done|]. intros [suffix Hs]. rewrite app_cons in Hs.
        by injection Hs as ? ?.
Qed.

Lemma is_ignore_dir_loop_spec s names :
  is_ignore_dir_loop s names = true
  ↔ ∃ ignore_name, ignore_name ∈ names ∧ startswith s ignore_name = true.
Proof.
  induction names as [|n names IH]; simpl.
  - split; [done|]. by intros (? & ?%elem_of_nil & _).
  - destruct (startswith s n) eqn:Hn.
    + split; [|done]. intros _. exists n. split; [left|done].
    + rewrite IH. split.
      * intros (m & Hm & Hs). exists m. split; [by right|done].
      * intros (m & [->|Hm]%elem_of_cons & Hs); [congruence|eauto].
Qed.

Lemma lower_char_idemp c : lower_char (lower_char c) = lower_char c.
Proof. by destruct c as [[] [] [] [] [] [] [] []]. Qed.

Lemma lower_idemp s : lower (lower s) = lower s.
Proof.
  induction s as [|c s IH]; [done|].
  simpl. by rewrite lower_char_idemp, IH.
Qed.

Lemma basename_lower p : basename (lower p) = lower (basename p).
Proof.
  unfold basename, slice_from.
  rewrite rfind_lower by apply caseless_slash. apply drop_lower.
Qed.

End FilterFacts.

(** What holds of every lower-casing that keeps the dots in place. *)

Module LowerCasing.
Import Str StrFacts StrApp os_path os_path_facts DotShape.

Lemma dot_shape_cons_elem c s :
  true ∈ dot_shape (String c s) ↔ c = "."%char ∨ true ∈ dot_shape s.
Proof.
  simpl. destruct (Ascii.eqb_spec c ".") as [->|Hc].
  - rewrite elem_of_cons. intuition.
  - destruct (dot_shape s) as [|[] shape];
      rewrite ?elem_of_cons, ?elem_of_nil; intuition congruence.
Qed.

Lemma from_last_dot_shape s : from_last_dot s = None ↔ true ∉ dot_shape s.
Proof.
  induction s as [|c s IH]; [split; [intros _; apply not_elem_of_nil|done]|].
  rewrite dot_shape_cons_elem. simpl from_last_dot.
  destruct (from_last_dot s) as [e|].
  - split; [done|]. intros Hn. apply IH. intros H. apply Hn. by right.
  - destruct (Ascii.eqb_spec c ".") as [->|Hc].
    + split; [done|]. intros Hn. exfalso. apply Hn. by left.
    + split; [|done]. intros _ [?|H]; [done|]. by apply (proj1 IH).
Qed.

Lemma dot_shape_head s shape :
  dot_shape s = true :: shape → ∃ y, s = String "." y ∧ dot_shape y = shape.
Proof.
  destruct s as [|c s]; [done|]. simpl.
  destruct (Ascii.eqb_spec c ".") as [->|Hc].
  - intros [= <-]. eauto.
  - by destruct (dot_shape s) as [|[] ?].
Qed.

Lemma dot_shape_head_other c s :
  c ≠ "."%char → false ∈ dot_shape (String c s).
Proof.
  intros Hc. simpl. destruct (Ascii.eqb_spec c "."); [done|].
  destruct (dot_shape s) as [|[] ?]; apply elem_of_cons; by left.
Qed.

Lemma from_last_dot_parts s e :
  from_last_dot s = Some e →
  ∃ pre x, s = pre +:+ String "." x ∧ e = String "." x ∧ from_last_dot x = None.
Proof.
  revert e. induction s as [|c s IH]; intros e; [done|].
  simpl. destruct (from_last_dot s) as [e'|] eqn:He.
  - intros [= <-]. destruct (IH _ eq_refl) as (pre & x & -> & -> & Hx).
    by exists (String c pre), x.
  - destruct (Ascii.eqb_spec c ".") as [->|Hc]; [|done].
    intros [= <-]. by exists "", s.
Qed.

Lemma from_last_dot_app pre y :
  from_last_dot y = None →
  from_last_dot (pre +:+ String "." y) = Some (String "." y).
Proof.
  intros Hy. induction pre as [|c pre IH].
  - simpl. by rewrite Hy.
  - rewrite app_cons. simpl. by rewrite IH.
Qed.

(** A name has no extension, or it is a text with a character other than
    the dot, followed by its extension: a dot and a text without dot. *)
Lemma extension_parts b :
  (extension_past_leading_dots b = "" ∧ extension_free (dot_shape b) = true)
  ∨ ∃ pre x,
      b = pre +:+ String "." x
      ∧ extension_past_leading_dots b = String "." x
      ∧ from_last_dot x = None
      ∧ false ∈ dot_shape pre.
Proof.
  unfold extension_past_leading_dots.
  induction b as [|c b IH]; [by left|].
  destruct (Ascii.eqb_spec c ".") as [->|Hc].
  - destruct IH as [[He Hfree]|(pre & x & -> & He & Hx & Hpre)].
    + by left.
    + right. exists (String "." pre), x. repeat split; [done|done|].
      simpl. by right.
  - assert (lstrip (String c b) "." = String c b) as ->.
    { simpl. by destruct (Ascii.eqb_spec c "."). }
    destruct (from_last_dot (String c b)) as [e|] eqn:He.
    + right. apply from_last_dot_parts in He as (pre & x & Hb & -> & Hx).
      exists pre, x. repeat split; [done|done|].
      destruct pre as [|c' pre]; [by injection Hb as -> _|].
      injection Hb as <- _. by apply dot_shape_head_other.
    + left. split; [done|]. by rewrite (dot_shape_no_dot _ He).
Qed.

Lemma extension_whole pre y :
  false ∈ dot_shape pre →
  from_last_dot y = None →
  extension_past_leading_dots (pre +:+ String "." y) = String "." y.
Proof.
  unfold extension_past_leading_dots. intros Hpre Hy.
  induction pre as [|c pre IH]; [by apply elem_of_nil in Hpre|].
  rewrite app_cons. simpl lstrip.
  destruct (Ascii.eqb_spec c ".") as [->|Hc].
  - apply IH. simpl in Hpre. by apply elem_of_cons in Hpre as [?|?].
  - rewrite <- app_cons. by rewrite from_last_dot_app.
Qed.

Lemma extension_free_none s :
  extension_free (dot_shape s) = true → extension_past_leading_dots s = "".
Proof.
  unfold extension_past_leading_dots.
  induction s as [|c s IH]; [done|].
  destruct (Ascii.eqb_spec c ".") as [->|Hc]; [done|].
  intros Hfree.
  assert (lstrip (String c s) "." = String c s) as ->.
  { simpl. by destruct (Ascii.eqb_spec c "."). }
  assert (from_last_dot (String c s) = None) as ->; [|done].
  apply from_last_dot_shape.
  pose proof (dot_shape_head_other c s Hc) as Hhead.
  assert (dot_shape (String c s) = [false]) as ->.
  { revert Hfree Hhead. simpl. destruct (Ascii.eqb_spec c "."); [done|].
    by destruct (dot_shape s) as [|[] [|? ?]]. }
  by intros [[=]|[]%elem_of_nil]%elem_of_cons.
Qed.

(** Lower-casing a name whose lower-cased form is ASCII text lower-cases
    its extension. *)
Lemma low_extension (low : string → string) b :
  (∀ s, dot_shape (low s) = dot_shape s) →
  (∀ a x, isascii (low (a +:+ String "." x)) = true →
          low (a +:+ String "." x) = low a +:+ low (String "." x)) →
  isascii (low b) = true →
  low (extension_past_leading_dots b) = extension_past_leading_dots (low b).
Proof.
  intros Hshape Happ.
  destruct (extension_parts b)
    as [[-> Hfree]|(pre & x & -> & -> & Hx & Hpre)]; intros Hascii.
  - rewrite extension_free_none by by rewrite Hshape.
    apply dot_shape_nil. by rewrite Hshape.
  - rewrite (Happ _ _ Hascii).
    destruct (dot_shape_head (low (String "." x)) (dot_shape x))
      as (y & Hy & Hyshape); [by rewrite Hshape|].
    rewrite Hy. symmetry. apply extension_whole; [by rewrite Hshape|].
    apply from_last_dot_shape. rewrite Hyshape. by apply from_last_dot_shape.
Qed.

Lemma lower_app a b : lower (a +:+ b) = lower a +:+ lower b.
Proof.
  induction a as [|c a IH]; [done|].
  rewrite app_cons. simpl. by rewrite IH.
Qed.

Lemma isascii_drop n s : isascii s = true → isascii (drop n s) = true.
Proof.
  revert s. induction n as [|n IH]; intros [|c s]; simpl; try done.
  intros [_ ?]%andb_true_iff. by apply IH.
Qed.

Lemma isascii_take n s : isascii s = true → isascii (take n s) = true.
Proof.
  revert s. induction n as [|n IH]; intros [|c s]; simpl; try done.
  intros [-> ?]%andb_true_iff. by apply IH.
Qed.

Lemma isascii_lower s : isascii s = true → isascii (lower s) = true.
Proof.
  induction s as [|c s IH]; [done|]. simpl.
  intros [Hc ?]%andb_true_iff. rewrite IH by done.
  rewrite andb_true_r. revert Hc.
  by destruct c as [[] [] [] [] [] [] [] []].
Qed.

Lemma isascii_basename p : isascii p = true → isascii (basename p) = true.
Proof. apply isascii_drop. Qed.

Lemma isascii_splitext p :
  isascii p = true → isascii (snd (splitext p)) = true.
Proof.
  intros Hp. unfold splitext.
  destruct (_ && _); cbn [snd]; unfold slice_from, slice_to.
  - by apply isascii_drop.
  - by apply isascii_take.
Qed.

End LowerCasing.

Section filter_properties.
Import Str StrFacts os_path os_path_facts os_path_lower PathFacts FilterFacts.
Import DotShape LowerCasing.

(** X1.  [is_ignore_dir] holds of a name exactly when its lower-cased form
    is one of the ignore prefixes followed by any text: the match is a
    prefix match, not an exact one, and it does not look at the case. *)
Theorem is_ignore_dir_prefix_match dir_name :
  is_ignore_dir dir_name = true
  ↔ ∃ ignore_name suffix,
      ignore_name ∈ IGNORE_DIRNAMES
      ∧ lower dir_name = ignore_name +:+ suffix.
Proof.
  unfold is_ignore_dir. rewrite is_ignore_dir_loop_spec. split.
  - intros (n & Hn & [suffix Hs]%prefix_app). eauto.
  - intros (n & suffix & Hn & Hs). exists n. split; [done|].
    apply prefix_app. eauto.
Qed.

(** X3.  For a path of ASCII characters the classifier does not look at
    the case of the path: the lower-cased path gets the decision of the
    path.  This holds with every lower-casing that does to ASCII text what
    [Str.lower] does, as [str.lower] does. *)
Theorem is_target_file_case_insensitive (low : string → string) file_path :
  (∀ s, isascii s = true → low s = lower s) →
  isascii file_path = true →
  is_target_file_with low (low file_path) = is_target_file_with low file_path.
Proof.
  intros Hlow Hascii. unfold is_target_file_with.
  rewrite (Hlow file_path) by done.
  rewrite basename_lower, splitext_lower.
  pose proof (isascii_basename _ Hascii) as Hbase.
  pose proof (isascii_splitext _ Hbase) as Hext.
  rewrite !Hlow by auto using isascii_lower.
  by rewrite !lower_idemp.
Qed.

Lemma is_target_file_case_insensitive_witness :
  is_target_file_with lower (lower "proj/Main.PY")
  = is_target_file_with lower "proj/Main.PY".
Proof.
  apply (is_target_file_case_insensitive lower "proj/Main.PY").
  - intros s _. reflexivity.
  - vm_compute. reflexivity.
Defined.

(** X4.  Every file whose lower-cased basename is an entry of
    [TARGET_FILENAMES] is accepted: through the bare-filename test when the
    entry has no dot, and through the extension test, never the
    bare-filename test, when it has one.  This holds whatever lower-casing
    does to the letters, inside ASCII and outside, as long as it keeps the
    dots of a text in place and, where the lower-cased form of a text is
    ASCII text, lower-cases what follows a dot as it does on its own;
    [str.lower] does both. *)
Theorem is_target_file_configured_name (low : string → string) file_path :
  (∀ s, dot_shape (low s) = dot_shape s) →
  (∀ a x, isascii (low (a +:+ String "." x)) = true →
          low (a +:+ String "." x) = low a +:+ low (String "." x)) →
  low (basename file_path) ∈ TARGET_FILENAMES →
  is_target_file_with low file_path = true
  ∧ bare_filename_branch_with low file_path
    = (rfind (low (basename file_path)) "." =? -1)
  ∧ bool_decide (low (snd (splitext (basename file_path))) ∈ TARGET_EXTENSIONS)
    = negb (rfind (low (basename file_path)) "." =? -1).
Proof.
  intros Hshape Happ Hname.
  assert (low (snd (splitext (basename file_path)))
          = extension_past_leading_dots (low (basename file_path))) as Hext.
  { rewrite splitext_ext by apply basename_no_sep.
    apply low_extension; [done|done|].
    table_cases Hname;
      match goal with
      | E : low (basename file_path) = _ |- _ => rewrite E
      | E : _ = low (basename file_path) |- _ => rewrite <- E
      end;
      reflexivity. }
  unfold is_target_file_with, bare_filename_branch_with. rewrite Hext.
  table_cases Hname;
    match goal with
    | E : low (basename file_path) = _ |- _ => rewrite !E
    | E : _ = low (basename file_path) |- _ => rewrite <- !E
    end;
    vm_compute; done.
Qed.

Lemma is_target_file_configured_name_witness :
  is_target_file_with lower "proj/Requirements.TXT" = true
  ∧ bare_filename_branch_with lower "proj/Requirements.TXT"
    = (rfind (lower (basename "proj/Requirements.TXT")) "." =? -1)
  ∧ bool_decide (lower (snd (splitext (basename "proj/Requirements.TXT")))
                   ∈ TARGET_EXTENSIONS)
    = negb (rfind (lower (basename "proj/Requirements.TXT")) "." =? -1).
Proof.
  apply (is_target_file_configured_name lower "proj/Requirements.TXT").
  - apply lower_dot_shape.
  - intros a x _. apply lower_app.
  - by_compute.
Defined.

End filter_properties.

(** ** Tree rendering *)

Module RenderMore.
Import StrApp PathFacts TreeFacts RenderFacts.

Lemma indentation_cons is_last flags :
  indentation (is_last :: flags) = deeper is_last +:+ indentation flags.
Proof. reflexivity. Qed.

(** The shape of the lines of the trace. *)
Lemma recurse_dir_trace_format current :
  ∀ parents prefix l,
    l ∈ recurse_dir_trace current parents prefix →
    ∃ flags is_last,
      length (line_parents l) = (length parents + length flags)%nat
      ∧ line_text l
        = prefix +:+ indentation flags +:+ connector is_last +:+ " "
          +:+ entry_name (line_entry l).
Proof.
  induction current as [name|name listable children IH] using entry_induction;
    intros parents prefix l; [by intros ?%elem_of_nil|].
  destruct listable; [|by intros ?%elem_of_nil].
  cbn [recurse_dir_trace]. rewrite elem_of_join_imap.
  intros (i & item & Hitem & Hl).
  apply list_elem_of_lookup_2 in Hitem. rewrite sorted_elem_of in Hitem.
  revert Hl. cbn beta zeta.
  match goal with
  | |- context [lookup_child children item ?k ?m] =>
      destruct (lookup_child_listed children item k m Hitem)
        as (c & Hc & <- & ->)
  end.
  destruct (isdir c && is_ignore_dir (entry_name c)); [by intros ?%elem_of_nil|].
  intros [->|Hl]%elem_of_cons.
  - exists [], (bool_decide (i = (length (sorted (entry_name <$> children)) - 1)%nat)).
    split; [simpl; lia|done].
  - destruct (isdir c); [|by apply elem_of_nil in Hl].
    rewrite Forall_forall in IH.
    destruct (IH c Hc _ _ _ Hl) as (flags & is_last & Hlen & Htext).
    exists (bool_decide (i = (length (sorted (entry_name <$> children)) - 1)%nat)
              :: flags), is_last.
    split.
    + rewrite Hlen, length_app. simpl. lia.
    + rewrite Htext, indentation_cons. by rewrite !app_assoc.
Qed.

(** Every entry of a directory that the walk reaches has its line, unless it
    is an ignored directory. *)
Lemma recurse_dir_trace_complete current names name children e :
  walks_to current names (Dir name true children) →
  ∀ parents prefix,
    wf_entry current = true →
    e ∈ children →
    isdir e && is_ignore_dir (entry_name e) = false →
    ∃ l, l ∈ recurse_dir_trace current parents prefix
         ∧ line_parents l = parents ++ names
         ∧ line_entry l = e.
Proof.
  intros Hwalk. remember (Dir name true children) as d eqn:Hd.
  induction Hwalk as [d|name' children' c names d Hc Hdir Hkeep Hwalk IH];
    intros parents prefix Hwf He Hshown.
  - subst d. destruct (wf_entry_dir _ _ _ Hwf) as [Hnodup _].
    assert (entry_name e ∈ sorted (entry_name <$> children)) as Hitem.
    { apply sorted_elem_of. by apply list_elem_of_fmap_2. }
    apply list_elem_of_lookup_1 in Hitem as [i Hi].
    exists (TreeLine parents e
              (prefix +:+ connector
                 (bool_decide (i = (length (sorted (entry_name <$> children)) - 1)%nat))
               +:+ " " +:+ entry_name e)).
    split; [|by rewrite List.app_nil_r].
    cbn [recurse_dir_trace]. apply elem_of_join_imap.
    exists i, (entry_name e). split; [done|]. cbn beta zeta.
    rewrite lookup_child_found, Hshown by done. left.
  - destruct (wf_entry_dir _ _ _ Hwf) as [Hnodup Hchildren].
    destruct (Hchildren c Hc) as [_ Hwfc].
    assert (entry_name c ∈ sorted (entry_name <$> children')) as Hitem.
    { apply sorted_elem_of. by apply list_elem_of_fmap_2. }
    apply list_elem_of_lookup_1 in Hitem as [i Hi].
    destruct (IH Hd (parents ++ [entry_name c])
                (prefix +:+ deeper
                   (bool_decide
                      (i = (length (sorted (entry_name <$> children')) - 1)%nat)))
                Hwfc He Hshown) as (l & Hl & Hparents & Hentry).
    exists l. split; [|split; [|done]].
    + cbn [recurse_dir_trace]. apply elem_of_join_imap.
      exists i, (entry_name c). split; [done|]. cbn beta zeta.
      rewrite lookup_child_found, Hdir, Hkeep by done. cbn [andb]. by right.
    + by rewrite Hparents, <- (assoc_L (++)).
Qed.

Lemma join_imap_singleton {A B} (g : nat → A → B) (l : list A) :
  mjoin (imap (λ i x, [g i x]) l) = imap g l.
Proof.
  revert g. induction l as [|x l IH]; intros g; [done|].
  rewrite !imap_cons. cbn [mjoin list_join]. simpl. f_equal. apply (IH (g ∘ S)).
Qed.

Lemma sorted_length l : length (sorted l) = length l.
Proof. unfold sorted. by rewrite merge_sort_Permutation. Qed.

End RenderMore.

Section render_properties.
Import StrApp PathFacts TreeFacts RenderFacts RenderMore.

(** X5.  Every line that [recurse_dir] emits for a tree is the line of an
    entry of the tree, and is made of one indentation unit for each
    directory between the root and the entry, a connector, a space and the
    name of the entry. *)
Theorem recurse_dir_line_format root line :
  line ∈ recurse_dir root "" →
  ∃ l flags is_last,
    l ∈ recurse_dir_trace root [] ""
    ∧ length flags = length (line_parents l)
    ∧ line = indentation flags +:+ connector is_last +:+ " "
             +:+ entry_name (line_entry l).
Proof.
  rewrite <- (recurse_dir_trace_text root [] "").
  intros (l & -> & Hl)%list_elem_of_fmap.
  destruct (recurse_dir_trace_format _ _ _ _ Hl) as (flags & is_last & Hlen & Htext).
  exists l, flags, is_last. split; [done|]. split; [done|]. exact Htext.
Qed.

Lemma recurse_dir_line_format_witness :
  ∃ l flags is_last,
    l ∈ recurse_dir_trace project_with_git [] ""
    ∧ length flags = length (line_parents l)
    ∧ "    └── notes.bin"
      = indentation flags +:+ connector is_last +:+ " "
        +:+ entry_name (line_entry l).
Proof.
  apply (recurse_dir_line_format project_with_git "    └── notes.bin").
  by_compute.
Defined.

(** X6.  The tree shows every entry of every directory that the walk
    reaches, target file or not, except the directories with an ignored
    name: such an entry has a line in the output of [recurse_dir]. *)
Theorem recurse_dir_shows_entries root names name children e :
  wf_entry root = true →
  walks_to root names (Dir name true children) →
  e ∈ children →
  isdir e && is_ignore_dir (entry_name e) = false →
  ∃ l, l ∈ recurse_dir_trace root [] ""
       ∧ line_parents l = names
       ∧ line_entry l = e
       ∧ line_text l ∈ recurse_dir root "".
Proof.
  intros Hwf Hwalk He Hshown.
  destruct (recurse_dir_trace_complete _ _ _ _ _ Hwalk [] "" Hwf He Hshown)
    as (l & Hl & Hparents & Hentry).
  exists l. split; [done|]. split; [done|]. split; [done|].
  rewrite <- (recurse_dir_trace_text root [] ""). by apply list_elem_of_fmap_2.
Qed.

Lemma recurse_dir_shows_entries_witness :
  ∃ l, l ∈ recurse_dir_trace project_with_git [] ""
       ∧ line_parents l = ["src"]
       ∧ line_entry l = File "notes.bin"
       ∧ line_text l ∈ recurse_dir project_with_git "".
Proof.
  apply (recurse_dir_shows_entries project_with_git ["src"] "src"
           [File "node_modules.py"; File "notes.bin"] (File "notes.bin")).
  - vm_compute. reflexivity.
  - apply (walks_down "proj" _
             (Dir "src" true [File "node_modules.py"; File "notes.bin"]) [] _).
    + apply list_elem_of_here.
    + reflexivity.
    + vm_compute. reflexivity.
    + apply walks_here.
  - apply list_elem_of_further, list_elem_of_here.
  - reflexivity.
Defined.

(** X7.  A directory that holds files only is rendered with one line for
    each file, in the sorted order of the names, the last one with the
    closing connector and the others with the branching one. *)
Theorem recurse_dir_files_only name children prefix :
  Forall (λ c, isdir c = false) children →
  recurse_dir (Dir name true children) prefix
  = imap (λ i item,
            prefix
            +:+ connector (bool_decide (i = (length children - 1)%nat))
            +:+ " " +:+ item)
         (sorted (entry_name <$> children)).
Proof.
  intros Hfiles. cbn [recurse_dir].
  rewrite sorted_length, length_fmap.
  etrans; [|apply join_imap_singleton]. f_equal.
  apply imap_ext. intros i item Hitem. cbn beta zeta.
  apply list_elem_of_lookup_2 in Hitem. rewrite sorted_elem_of in Hitem.
  match goal with
  | |- context [lookup_child children item ?k ?m] =>
      destruct (lookup_child_listed children item k m Hitem)
        as (c & Hc & <- & ->)
  end.
  rewrite Forall_forall in Hfiles. by rewrite (Hfiles c Hc).
Qed.

Lemma recurse_dir_files_only_witness :
  recurse_dir (Dir "src" true [File "z.md"; File "a.c"]) "    "
  = imap (λ i item,
            "    "
            +:+ connector (bool_decide (i = (length [File "z.md"; File "a.c"] - 1)%nat))
            +:+ " " +:+ item)
         (sorted (entry_name <$> [File "z.md"; File "a.c"])).
Proof.
  apply (recurse_dir_files_only "src" [File "z.md"; File "a.c"] "    ").
  repeat constructor.
Defined.

End render_properties.

(** ** The order in which the file system yields entries *)

Module ReorderFacts.
Import PathFacts TreeFacts RenderFacts WalkFacts.

Lemma reordered_name e e' : reordered e e' → entry_name e' = entry_name e.
Proof. by intros []. Qed.

Lemma reordered_isdir e e' : reordered e e' → isdir e' = isdir e.
Proof. by intros []. Qed.

Lemma reordered_names cs1 cs2 :
  Forall2 reordered cs1 cs2 → entry_name <$> cs2 = entry_name <$> cs1.
Proof.
  induction 1 as [|c1 c2 cs1 cs2 Hc _ IH]; [done|].
  by rewrite !fmap_cons, IH, (reordered_name _ _ Hc).
Qed.

Lemma reordered_names_filter (b : bool) cs1 cs2 :
  Forall2 reordered cs1 cs2 →
  entry_name <$> filter (λ c, isdir c = b) cs2
  = entry_name <$> filter (λ c, isdir c = b) cs1.
Proof.
  induction 1 as [|c1 c2 cs1 cs2 Hc _ IH]; [done|].
  rewrite !filter_cons, (reordered_isdir _ _ Hc).
  destruct (decide (isdir c1 = b)); [|done].
  by rewrite !fmap_cons, IH, (reordered_name _ _ Hc).
Qed.

(** Sorting does not depend on the order of what is sorted. *)
Lemma sorted_Permutation l1 l2 : l1 ≡ₚ l2 → sorted l1 = sorted l2.
Proof.
  intros Hperm. unfold sorted.
  apply (StronglySorted_unique String.le).
  - apply StronglySorted_merge_sort; apply _.
  - apply StronglySorted_merge_sort; apply _.
  - by rewrite !merge_sort_Permutation.
Qed.

(** A name of the listing names the same entry in both orders. *)
Lemma reordered_lookup cs cs1 cs2 item :
  NoDup (entry_name <$> cs) →
  cs ≡ₚ cs1 →
  Forall2 reordered cs1 cs2 →
  item ∈ entry_name <$> cs →
  ∃ c c2,
    c ∈ cs ∧ entry_name c = item ∧ reordered c c2
    ∧ (∀ A (k : entry → A) missing, lookup_child cs item k missing = k c)
    ∧ (∀ A (k : entry → A) missing, lookup_child cs2 item k missing = k c2).
Proof.
  intros Hnodup Hperm Hall (c & -> & Hc)%list_elem_of_fmap.
  assert (c ∈ cs1) as Hc1 by by rewrite <- Hperm.
  apply list_elem_of_lookup_1 in Hc1 as [i Hi].
  destruct (Forall2_lookup_l _ _ _ _ _ Hall Hi) as (c2 & Hi2 & Hcc2).
  exists c, c2. split; [done|]. split; [done|]. split; [done|].
  split; intros A k missing.
  - by apply lookup_child_found.
  - rewrite <- (reordered_name _ _ Hcc2). apply lookup_child_found.
    + by rewrite (reordered_names _ _ Hall), <- Hperm.
    + by eapply list_elem_of_lookup_2.
Qed.

Lemma recurse_dir_reordered e :
  ∀ e' prefix,
    wf_entry e = true → reordered e e' →
    recurse_dir e' prefix = recurse_dir e prefix.
Proof.
  induction e as [name|name listable children IH] using entry_induction;
    intros e' prefix Hwf Hre.
  { by inversion Hre. }
  inversion Hre as [|? ? ? children1 children2 Hperm Hall]; subst.
  destruct listable; [|done].
  destruct (wf_entry_dir _ _ _ Hwf) as [Hnodup Hchildren].
  assert (entry_name <$> children2 ≡ₚ entry_name <$> children) as Hnames.
  { by rewrite (reordered_names _ _ Hall), Hperm. }
  cbn [recurse_dir]. rewrite (sorted_Permutation _ _ Hnames).
  f_equal. apply imap_ext. intros i item Hitem. cbn beta zeta.
  apply list_elem_of_lookup_2 in Hitem. rewrite sorted_elem_of in Hitem.
  destruct (reordered_lookup _ _ _ _ Hnodup Hperm Hall Hitem)
    as (c & c2 & Hc & _ & Hcc2 & -> & ->).
  rewrite (reordered_isdir _ _ Hcc2).
  destruct (isdir c && is_ignore_dir item); [done|]. f_equal.
  destruct (isdir c); [|done].
  rewrite Forall_forall in IH. apply IH; [done| |done].
  by apply Hchildren.
Qed.

Lemma join_fmap_Permutation {A B} (f g : A → list B) (l l' : list A) :
  l ≡ₚ l' →
  (∀ x, x ∈ l → f x ≡ₚ g x) →
  mjoin (f <$> l) ≡ₚ mjoin (g <$> l').
Proof.
  intros Hperm Hfg. rewrite <- Hperm. clear l' Hperm.
  induction l as [|x l IH]; [done|].
  rewrite !fmap_cons. cbn [mjoin list_join].
  apply Permutation_app.
  - apply Hfg. left.
  - apply IH. intros y Hy. apply Hfg. by right.
Qed.

Lemma os_walk_reordered root_path e :
  ∀ e' top,
    wf_entry e = true → reordered e e' →
    os_walk (collect_round root_path) top e'
    ≡ₚ os_walk (collect_round root_path) top e.
Proof.
  induction e as [name|name listable children IH] using entry_induction;
    intros e' top Hwf Hre.
  { by inversion Hre. }
  inversion Hre as [|? ? ? children1 children2 Hperm Hall]; subst.
  destruct listable; [|done].
  destruct (wf_entry_dir _ _ _ Hwf) as [Hnodup Hchildren].
  rewrite !os_walk_dir. cbn [collect_round fst snd].
  rewrite !(reordered_names_filter _ _ _ Hall).
  apply Permutation_app.
  - by rewrite Hperm.
  - apply join_fmap_Permutation; [by rewrite Hperm|].
    intros dirname [_ Hdirname]%list_elem_of_filter.
    assert (dirname ∈ entry_name <$> children) as Hitem.
    { apply list_elem_of_fmap in Hdirname as (c & -> & [_ Hc]%list_elem_of_filter).
      rewrite <- Hperm in Hc. by apply list_elem_of_fmap_2. }
    destruct (reordered_lookup _ _ _ _ Hnodup Hperm Hall Hitem)
      as (c & c2 & Hc & _ & Hcc2 & -> & ->).
    rewrite Forall_forall in IH. apply IH; [done| |done].
    by apply Hchildren.
Qed.

Lemma unlistable_as_empty_name c :
  entry_name (unlistable_as_empty c) = entry_name c.
Proof. by destruct c as [|name [] children]. Qed.

Lemma unlistable_as_empty_isdir c :
  isdir (unlistable_as_empty c) = isdir c.
Proof. by destruct c as [|name [] children]. Qed.

Lemma names_unlistable_as_empty (cs : list entry) :
  entry_name <$> (unlistable_as_empty <$> cs) = entry_name <$> cs.
Proof.
  rewrite <- list_fmap_compose. apply list_fmap_ext.
  intros _ c _. apply unlistable_as_empty_name.
Qed.

Lemma recurse_dir_unlistable_as_empty current :
  ∀ prefix,
    recurse_dir (unlistable_as_empty current) prefix
    = recurse_dir current prefix.
Proof.
  induction current as [name|name listable children IH] using entry_induction;
    intros prefix; [done|].
  destruct listable; [|done].
  cbn [unlistable_as_empty recurse_dir].
  rewrite names_unlistable_as_empty.
  f_equal. apply imap_ext. intros i item _. cbn beta zeta.
  rewrite lookup_child_renamed by apply unlistable_as_empty_name.
  apply lookup_child_ext. intros c Hc _.
  rewrite unlistable_as_empty_isdir.
  destruct (isdir c && is_ignore_dir item); [done|]. f_equal.
  destruct (isdir c); [|done].
  rewrite Forall_forall in IH. by apply IH.
Qed.

Lemma os_walk_unlistable_as_empty root_path d :
  ∀ top,
    os_walk (collect_round root_path) top (unlistable_as_empty d)
    = os_walk (collect_round root_path) top d.
Proof.
  induction d as [name|name listable children IH] using entry_induction;
    intros top; [done|].
  destruct listable; [|done].
  cbn [unlistable_as_empty]. rewrite !os_walk_dir.
  rewrite !names_filter_renamed
    by auto using unlistable_as_empty_name,
                  unlistable_as_empty_isdir.
  f_equal. f_equal. cbn [collect_round fst].
  apply list_fmap_ext. intros i dirname _.
  rewrite lookup_child_renamed by apply unlistable_as_empty_name.
  apply lookup_child_ext. intros c Hc _.
  rewrite Forall_forall in IH. by apply IH.
Qed.

End ReorderFacts.

Section order_properties.
Import PathFacts TreeFacts RenderFacts WalkFacts ReorderFacts.

(** X8.  The rendered tree does not depend on the order in which the file
    system yields the entries of the directories. *)
Theorem get_directory_structure_order_independent root root' :
  wf_entry root = true →
  reordered root root' →
  get_directory_structure root' = get_directory_structure root.
Proof.
  intros Hwf Hre. unfold get_directory_structure.
  by rewrite (recurse_dir_reordered _ _ _ Hwf Hre), (reordered_name _ _ Hre).
Qed.

(** X9.  The list that [collect_files] returns does not depend on the order
    in which the file system yields the entries of the directories. *)
Theorem collect_files_order_independent root_path root root' :
  wf_entry root = true →
  reordered root root' →
  collect_files root_path root' = collect_files root_path root.
Proof.
  intros Hwf Hre. unfold collect_files.
  apply sorted_Permutation. by apply os_walk_reordered.
Qed.

(** X10.  A directory that cannot be listed is treated as an empty one:
    the rendered tree and the collected files are those of the tree in which
    every such directory is an empty directory that can be listed.  The
    directory keeps its line in the tree, and nothing tells the two apart. *)
Theorem unlistable_directory_as_empty root_path root :
  get_directory_structure (unlistable_as_empty root)
  = get_directory_structure root
  ∧ collect_files root_path (unlistable_as_empty root)
    = collect_files root_path root.
Proof.
  unfold get_directory_structure, collect_files.
  by rewrite recurse_dir_unlistable_as_empty, os_walk_unlistable_as_empty,
       unlistable_as_empty_name.
Qed.

End order_properties.

Lemma project_listed_reordered :
  reordered project_listed project_listed_otherwise.
Proof.
  apply (reordered_dir "proj" true _
           [Dir "src" true [File "z.md"; File "a.c"]; File "README"; File "b.py"]).
  - exact (Permutation_cons_append
             [Dir "src" true [File "z.md"; File "a.c"]; File "README"]
             (File "b.py")).
  - repeat constructor.
    apply (reordered_dir "src" true _ [File "a.c"; File "z.md"]).
    + apply perm_swap.
    + repeat constructor.
Qed.

Lemma get_directory_structure_order_independent_witness :
  get_directory_structure project_listed_otherwise
  = get_directory_structure project_listed.
Proof.
  apply (get_directory_structure_order_independent
           project_listed project_listed_otherwise).
  - vm_compute. reflexivity.
  - exact project_listed_reordered.
Defined.

Lemma collect_files_order_independent_witness :
  collect_files "/srv/proj" project_listed_otherwise
  = collect_files "/srv/proj" project_listed.
Proof.
  apply (collect_files_order_independent "/srv/proj"
           project_listed project_listed_otherwise).
  - vm_compute. reflexivity.
  - exact project_listed_reordered.
Defined.

(** ** Target collection and the report *)

Module CollectMore.
Import Str StrFacts StrApp os_path os_path_facts PathFacts TreeFacts WalkFacts.

Lemma rfind_app_sep_nonneg a b : 0 ≤ rfind (a +:+ String sep b) sep.
Proof.
  induction a as [|c a IH].
  - change ("" +:+ String sep b) with (String sep b).
    rewrite rfind_cons, Ascii.eqb_refl.
    destruct (Z.leb_spec 0 (rfind b sep)); lia.
  - rewrite app_cons, rfind_cons.
    destruct (Z.leb_spec 0 (rfind (a +:+ String sep b) sep)); lia.
Qed.

(** The basename of a text is the basename of what follows a separator. *)
Lemma basename_app_sep_any a b : basename (a +:+ String sep b) = basename b.
Proof.
  induction a as [|c a IH].
  - change ("" +:+ String sep b) with (String sep b).
    unfold basename. rewrite rfind_cons, Ascii.eqb_refl.
    pose proof (rfind_lower_bound b sep).
    destruct (Z.leb_spec 0 (rfind b sep)).
    + by rewrite slice_from_cons by lia.
    + by replace (rfind b sep) with (-1) by lia.
  - rewrite <- IH, app_cons. unfold basename. rewrite rfind_cons.
    pose proof (rfind_app_sep_nonneg a b).
    replace (0 <=? rfind (a +:+ String sep b) sep) with true by lia.
    by rewrite slice_from_cons by lia.
Qed.

Lemma startswith_sep b :
  startswith b (String sep "") = true → ∃ b', b = String sep b'.
Proof.
  unfold startswith. destruct b as [|c b]; [done|].
  change (String.prefix (String sep "") (String c b))
    with (match ascii_dec sep c with
          | left _ => String.prefix "" b
          | right _ => false
          end).
  destruct (ascii_dec sep c) as [<-|]; [|done]. by exists b.
Qed.

(** [join] leaves the basename of its second argument. *)
Lemma basename_join_any a b : basename (join a b) = basename b.
Proof.
  unfold join. destruct (startswith b (String sep "")) eqn:Hb; [done|].
  destruct (String.eqb_spec a "") as [->|Ha]; [done|]. simpl.
  destruct (endswith a sep) eqn:Hend.
  - apply endswith_snoc in Hend as [a' ->].
    rewrite app_assoc. apply basename_app_sep_any.
  - apply basename_app_sep_any.
Qed.

Lemma is_target_file_join_any a b :
  is_target_file (join a b) = is_target_file b.
Proof.
  rewrite <- (is_target_file_basename (join a b)), basename_join_any.
  apply is_target_file_basename.
Qed.

Lemma join_snoc names f :
  names ≠ [] →
  Str.join "/" (names ++ [f]) = Str.join "/" names +:+ String sep f.
Proof.
  induction names as [|n names IH]; [done|]. intros _.
  destruct names as [|n' names]; [done|].
  change (Str.join "/" ((n :: n' :: names) ++ [f]))
    with (n +:+ String sep (Str.join "/" ((n' :: names) ++ [f]))).
  rewrite IH by done.
  change (Str.join "/" (n :: n' :: names))
    with (n +:+ String sep (Str.join "/" (n' :: names))).
  by rewrite !app_assoc.
Qed.

Lemma basename_join_names names f :
  rfind f sep = -1 → basename (Str.join "/" (names ++ [f])) = f.
Proof.
  intros Hf. destruct names as [|n names].
  - by apply basename_idemp.
  - rewrite join_snoc by done. rewrite basename_app_sep_any.
    by apply basename_idemp.
Qed.

(** What a collected path is made of. *)
Lemma collected_components root pre p :
  wf_entry root = true →
  collected root pre p →
  ∃ names f,
    Forall (λ n, valid_name n = true) names ∧ valid_name f = true
    ∧ is_target_file f = true
    ∧ p = Str.join "/" (pre ++ names ++ [f]).
Proof.
  intros Hwf (names & name & children & f & Hwalk & Hf & Htarget & ->).
  destruct (walks_to_valid _ _ _ Hwf Hwalk) as [Hnames Hwfd].
  destruct (wf_entry_dir _ _ _ Hwfd) as [_ Hchildren].
  destruct (Hchildren _ Hf) as [Hvalid _]. cbn [entry_name] in Hvalid.
  by exists names, f.
Qed.

Lemma split_collected pre names f :
  Forall (λ n, valid_name n = true) pre →
  Forall (λ n, valid_name n = true) names →
  valid_name f = true →
  split (Str.join "/" (pre ++ names ++ [f])) sep = pre ++ names ++ [f].
Proof.
  intros Hpre Hnames Hf. apply split_join.
  - by destruct pre, names.
  - rewrite !Forall_app. split; [done|]. split; [done|]. by constructor.
Qed.

End CollectMore.

Module JoinFacts.
Import Str StrFacts StrApp os_path os_path_facts PathFacts CollectMore.

Lemma startswith_app n x :
  n ≠ "" → startswith (n +:+ x) (String sep "") = startswith n (String sep "").
Proof.
  intros Hn. destruct n as [|c n]; [done|].
  unfold startswith. rewrite app_cons.
  change (String.prefix (String sep "") (String c (n +:+ x)))
    with (match ascii_dec sep c with
          | left _ => String.prefix "" (n +:+ x)
          | right _ => false
          end).
  change (String.prefix (String sep "") (String c n))
    with (match ascii_dec sep c with
          | left _ => String.prefix "" n
          | right _ => false
          end).
  destruct (ascii_dec sep c); [|done]. by destruct (n +:+ x), n.
Qed.

(** A relative path made of valid names: not empty, no separator at either
    end. *)
Lemma join_names_relative names :
  names ≠ [] → Forall (λ n, valid_name n = true) names →
  Str.join "/" names ≠ ""
  ∧ startswith (Str.join "/" names) (String sep "") = false
  ∧ endswith (Str.join "/" names) sep = false.
Proof.
  intros Hne Hnames.
  induction names as [|n names IH] using rev_ind; [done|].
  apply Forall_app in Hnames as [Hnames [Hn _]%Forall_cons].
  destruct (valid_name_spec _ Hn) as [Hn' Hsep].
  destruct names as [|n' names].
  - split; [done|]. split; [by apply startswith_no_sep|by apply endswith_no_sep].
  - rewrite join_snoc by done.
    destruct (IH ltac:(done) Hnames) as (Hnonempty & Hstart & _).
    split; [by destruct (Str.join "/" (n' :: names))|]. split.
    + by rewrite startswith_app.
    + rewrite endswith_app, endswith_cons by done. by apply endswith_no_sep.
Qed.

Lemma join_relative a b :
  startswith b (String sep "") = false →
  join a b = if String.eqb a "" || endswith a sep then a +:+ b
             else a +:+ String sep b.
Proof. unfold join. by intros ->. Qed.

(** Joining name after name is joining the relative path at once. *)
Lemma join_join a rel n :
  rel ≠ "" →
  startswith rel (String sep "") = false →
  endswith rel sep = false →
  valid_name n = true →
  join (join a rel) n = join a (rel +:+ String sep n).
Proof.
  intros Hne Hstart Hend Hn.
  rewrite (join_relative a (rel +:+ _)) by by rewrite startswith_app.
  rewrite join_valid, (join_relative a rel) by done.
  destruct (String.eqb a "" || endswith a sep).
  - rewrite endswith_app, Hend by done.
    rewrite (proj2 (String.eqb_neq (a +:+ rel) "")) by by destruct a, rel.
    cbn [orb]. by rewrite app_assoc.
  - rewrite endswith_app, endswith_cons, Hend by done.
    rewrite (proj2 (String.eqb_neq (a +:+ String sep rel) "")) by by destruct a.
    cbn [orb]. rewrite !app_assoc. reflexivity.
Qed.

Lemma dir_path_join root_path names :
  names ≠ [] → Forall (λ n, valid_name n = true) names →
  dir_path root_path names = join root_path (Str.join "/" names).
Proof.
  intros Hne Hnames.
  induction names as [|n names IH] using rev_ind; [done|].
  apply Forall_app in Hnames as [Hnames [Hn _]%Forall_cons].
  rewrite dir_path_snoc. destruct names as [|n' names]; [done|].
  rewrite IH, join_snoc by done.
  destruct (join_names_relative (n' :: names)) as (? & ? & ?); [done..|].
  by apply join_join.
Qed.

End JoinFacts.

Module NoDupFacts.
Import Str StrFacts StrApp os_path os_path_facts PathFacts TreeFacts WalkFacts
       CollectMore.

Lemma NoDup_names_filter (P : entry → Prop) `{∀ c, Decision (P c)}
    (cs : list entry) :
  NoDup (entry_name <$> cs) → NoDup (entry_name <$> filter P cs).
Proof.
  induction cs as [|c cs IH]; [done|].
  rewrite fmap_cons, filter_cons. intros [Hnotin Hnodup]%NoDup_cons.
  destruct (decide (P c)); [|by apply IH].
  rewrite fmap_cons. apply NoDup_cons. split; [|by apply IH].
  intros (c' & Heq & [_ Hc']%list_elem_of_filter)%list_elem_of_fmap.
  apply Hnotin. rewrite Heq. by apply list_elem_of_fmap_2.
Qed.

(** What one round of the loop appends for the files of a directory. *)
Lemma collect_round_appended root_path pre dirnames filenames :
  tidy root_path →
  Forall (λ n, valid_name n = true) pre →
  Forall (λ n, valid_name n = true) filenames →
  (collect_round root_path (dir_path root_path pre) dirnames filenames).2
  = (λ f, Str.join "/" (pre ++ [f]))
      <$> filter (λ f, is_target_file f = true) filenames.
Proof.
  intros Hroot Hpre Hfiles. cbn [collect_round snd].
  induction Hfiles as [|f filenames Hf _ IH]; [done|].
  cbn [omap list_omap] in *. rewrite filter_cons.
  rewrite is_target_file_join, relpath_below, IH by done.
  destruct (is_target_file f); [|done].
  by rewrite decide_True by done.
Qed.

Lemma NoDup_join_fmap {A B} (G : A → list B) (l : list A) :
  NoDup l →
  (∀ x, x ∈ l → NoDup (G x)) →
  (∀ x y p, x ∈ l → y ∈ l → p ∈ G x → p ∈ G y → x = y) →
  NoDup (mjoin (G <$> l)).
Proof.
  induction l as [|x l IH]; intros Hl Heach Hapart; [constructor|].
  apply NoDup_cons in Hl as [Hx Hl].
  rewrite fmap_cons. cbn [mjoin list_join]. apply NoDup_app. split; [|split].
  - apply Heach. left.
  - intros p Hp (ps & Hps & (y & -> & Hy)%list_elem_of_fmap)%list_elem_of_join.
    apply Hx. rewrite (Hapart x y p); [done|left|by right|done|done].
  - apply IH; [done| |].
    + intros y Hy. apply Heach. by right.
    + intros y z p Hy Hz. apply Hapart; by right.
Qed.

Lemma join_components_inj pre f f' :
  Forall (λ n, valid_name n = true) pre →
  valid_name f = true → valid_name f' = true →
  Str.join "/" (pre ++ [f]) = Str.join "/" (pre ++ [f']) → f = f'.
Proof.
  intros Hpre Hf Hf' Heq.
  assert (pre ++ [f] = pre ++ [f']) as Hlists.
  { pose proof (split_collected pre [] f Hpre ltac:(constructor) Hf) as Hs.
    pose proof (split_collected pre [] f' Hpre ltac:(constructor) Hf') as Hs'.
    simpl in Hs, Hs'. by rewrite <- Hs, <- Hs', Heq. }
  apply app_inv_head in Hlists. by injection Hlists.
Qed.

Lemma os_walk_NoDup root_path d :
  tidy root_path →
  ∀ pre,
    Forall (λ n, valid_name n = true) pre →
    wf_entry d = true →
    NoDup (os_walk (collect_round root_path) (dir_path root_path pre) d).
Proof.
  intros Hroot.
  induction d as [name|name listable children IH] using entry_induction;
    intros pre Hpre Hwf; [constructor|].
  destruct listable; [|constructor].
  destruct (wf_entry_dir _ _ _ Hwf) as [Hnodup Hchildren].
  rewrite Forall_forall in IH.
  assert (Forall (λ n, valid_name n = true)
            (entry_name <$> filter (λ c, isdir c = false) children)) as Hfiles.
  { apply Forall_forall.
    intros f (c & -> & [_ Hc]%list_elem_of_filter)%list_elem_of_fmap.
    by apply Hchildren. }
  assert (∀ dirname p,
            dirname ∈ entry_name <$> filter (λ c, isdir c = true) children →
            p ∈ lookup_child children dirname
                  (λ c, os_walk (collect_round root_path)
                          (os_path.join (dir_path root_path pre) dirname) c) [] →
            ∃ rest, rest ≠ [] ∧ split p sep = pre ++ dirname :: rest) as Hbelow.
  { intros dirname p (c & -> & [_ Hc]%list_elem_of_filter)%list_elem_of_fmap Hp.
    destruct (Hchildren c Hc) as [Hvalid Hwfc].
    rewrite lookup_child_found, <- dir_path_snoc in Hp by done.
    assert (Forall (λ n, valid_name n = true) (pre ++ [entry_name c])) as Hpre'.
    { apply Forall_app. split; [done|by constructor]. }
    apply os_walk_collect in Hp; [|done..].
    destruct (collected_components _ _ _ Hwfc Hp)
      as (names & f & Hnames & Hf & _ & ->).
    exists (names ++ [f]). split; [by destruct names|].
    rewrite split_collected by done. by rewrite <- (assoc_L (++)). }
  rewrite os_walk_dir, collect_round_appended by done.
  cbn [collect_round fst]. apply NoDup_app. split; [|split].
  - apply NoDup_fmap_2_strong.
    + intros f f' [_ Hf]%list_elem_of_filter [_ Hf']%list_elem_of_filter.
      rewrite Forall_forall in Hfiles. apply join_components_inj; auto.
    + apply NoDup_filter. by apply NoDup_names_filter.
  - intros p (f & -> & [_ Hf]%list_elem_of_filter)%list_elem_of_fmap.
    intros (ps & Hp & (dirname & -> & [_ Hdir]%list_elem_of_filter)%list_elem_of_fmap)%list_elem_of_join.
    destruct (Hbelow _ _ Hdir Hp) as (rest & Hrest & Hsplit).
    rewrite Forall_forall in Hfiles.
    pose proof (split_collected pre [] f Hpre ltac:(constructor)
                  (Hfiles f Hf)) as Hs.
    simpl in Hs. rewrite Hs in Hsplit.
    apply app_inv_head in Hsplit. injection Hsplit as _ Hnil. by subst rest.
  - apply NoDup_join_fmap.
    + apply NoDup_filter. by apply NoDup_names_filter.
    + intros dirname [_ (c & -> & [_ Hc]%list_elem_of_filter)%list_elem_of_fmap]%list_elem_of_filter.
      destruct (Hchildren c Hc) as [Hvalid Hwfc].
      rewrite lookup_child_found, <- dir_path_snoc by done.
      apply IH; [done| |done].
      apply Forall_app. split; [done|by constructor].
    + intros x y p [_ Hx]%list_elem_of_filter [_ Hy]%list_elem_of_filter Hpx Hpy.
      destruct (Hbelow _ _ Hx Hpx) as (rest & _ & Hsplit).
      destruct (Hbelow _ _ Hy Hpy) as (rest' & _ & Hsplit').
      rewrite Hsplit in Hsplit'. apply app_inv_head in Hsplit'.
      by injection Hsplit'.
Qed.

End NoDupFacts.

Section collect_properties.
Import Str StrFacts StrApp os_path os_path_facts PathFacts TreeFacts
       RenderFacts RenderMore WalkFacts CollectMore JoinFacts NoDupFacts.

(** X2.  The decision of [is_target_file] depends on the basename of the
    path only: joining a name to any directory path gives the decision for
    the name alone, and so does taking the basename. *)
Theorem is_target_file_any_directory dirpath filename :
  is_target_file (join dirpath filename) = is_target_file filename
  ∧ is_target_file (basename filename) = is_target_file filename.
Proof.
  split; [apply is_target_file_join_any|apply is_target_file_basename].
Qed.

(** X11.  Every path that [collect_files] returns is accepted by
    [is_target_file], as the relative path it is and as the absolute path
    that [main] opens. *)
Theorem collect_files_only_targets root_path root p :
  abspath_result root_path = true →
  wf_entry root = true →
  p ∈ collect_files root_path root →
  is_target_file p = true
  ∧ is_target_file (join root_path p) = true.
Proof.
  intros Hroot Hwf Hp%collect_files_spec; [|done..].
  destruct (collected_components _ _ _ Hwf Hp)
    as (names & f & Hnames & Hf & Htarget & ->).
  destruct (valid_name_spec _ Hf) as [_ Hsep].
  rewrite is_target_file_join_any.
  rewrite <- is_target_file_basename. simpl app.
  by rewrite basename_join_names.
Qed.

Lemma collect_files_only_targets_witness :
  is_target_file "src/node_modules.py" = true
  ∧ is_target_file (join "/srv/proj" "src/node_modules.py") = true.
Proof.
  apply (collect_files_only_targets "/srv/proj" project_with_git
           "src/node_modules.py").
  - vm_compute. reflexivity.
  - vm_compute. reflexivity.
  - by_compute.
Defined.

(** X12.  [collect_files] returns no path twice. *)
Theorem collect_files_no_duplicates root_path root :
  abspath_result root_path = true →
  wf_entry root = true →
  NoDup (collect_files root_path root).
Proof.
  intros Hroot%abspath_result_tidy Hwf. unfold collect_files, sorted.
  rewrite merge_sort_Permutation.
  by apply (os_walk_NoDup root_path root Hroot []).
Qed.

Lemma collect_files_no_duplicates_witness :
  NoDup (collect_files "/srv/proj" project_with_git).
Proof.
  apply (collect_files_no_duplicates "/srv/proj" project_with_git);
    vm_compute; reflexivity.
Defined.

(** X13.  Joining the root path and the relative path that [collect_files]
    computes for a file gives the path of the file back: [main] opens the
    file that was classified. *)
Theorem join_relpath_round_trip root_path names f :
  abspath_result root_path = true →
  Forall (λ n, valid_name n = true) names →
  valid_name f = true →
  join root_path (relpath (join (dir_path root_path names) f) root_path)
  = join (dir_path root_path names) f.
Proof.
  intros Hroot%abspath_result_tidy Hnames Hf.
  rewrite relpath_below, <- dir_path_snoc by done.
  symmetry. apply dir_path_join; [by destruct names|].
  apply Forall_app. split; [done|by constructor].
Qed.

Lemma join_relpath_round_trip_witness :
  join "/srv/proj"
    (relpath (join (dir_path "/srv/proj" ["src"; "lib"]) "m.py") "/srv/proj")
  = join (dir_path "/srv/proj" ["src"; "lib"]) "m.py".
Proof.
  apply (join_relpath_round_trip "/srv/proj" ["src"; "lib"] "m.py").
  - vm_compute. reflexivity.
  - repeat constructor.
  - vm_compute. reflexivity.
Defined.

(** X14.  Every file that [collect_files] returns is shown in the rendered
    tree: it has a line there, under the directories of its relative
    path. *)
Theorem collected_files_are_rendered root_path root p :
  abspath_result root_path = true →
  wf_entry root = true →
  p ∈ collect_files root_path root →
  ∃ l, l ∈ recurse_dir_trace root [] ""
       ∧ line_text l ∈ recurse_dir root ""
       ∧ isdir (line_entry l) = false
       ∧ p = Str.join "/" (line_parents l ++ [entry_name (line_entry l)]).
Proof.
  intros Hroot Hwf Hp%collect_files_spec; [|done..].
  destruct Hp as (names & name & children & f & Hwalk & Hf & _ & ->).
  destruct (recurse_dir_trace_complete _ _ _ _ (File f) Hwalk [] "" Hwf Hf)
    as (l & Hl & Hparents & Hentry); [done|].
  exists l. split; [done|]. split.
  { rewrite <- (recurse_dir_trace_text root [] ""). by apply list_elem_of_fmap_2. }
  rewrite Hparents, Hentry. done.
Qed.

Lemma collected_files_are_rendered_witness :
  ∃ l, l ∈ recurse_dir_trace project_with_git [] ""
       ∧ line_text l ∈ recurse_dir project_with_git ""
       ∧ isdir (line_entry l) = false
       ∧ "src/node_modules.py"
         = Str.join "/" (line_parents l ++ [entry_name (line_entry l)]).
Proof.
  apply (collected_files_are_rendered "/srv/proj" project_with_git
           "src/node_modules.py").
  - vm_compute. reflexivity.
  - vm_compute. reflexivity.
  - by_compute.
Defined.

End collect_properties.

Section report_properties.
Variable read_text : string → string + string.
Variable root_path : string.

Lemma file_sections_foldr paths :
  file_sections read_text root_path paths
  = foldr (λ section rest, section +:+ rest) ""
      (file_section read_text root_path <$> paths).
Proof.
  induction paths as [|p paths IH]; [done|].
  rewrite file_sections_cons, IH, fmap_cons. cbn [foldr]. f_equal.
  change (write_file read_text root_path "" p)
    with (file_sections read_text root_path [p]).
  apply file_section_shape.
Qed.

(** X15.  The text that [main] writes is the header with the rendered
    tree, followed by the sections of the collected files in the order of
    [collect_files], one section for each file, whether it could be read or
    not. *)
Theorem main_report_shape root :
  main read_text root_path root
  = report_header (get_directory_structure root)
    +:+ foldr (λ section rest, section +:+ rest) ""
          (file_section read_text root_path <$> collect_files root_path root).
Proof.
  unfold main. rewrite write_report_sections, file_sections_foldr. f_equal.
  unfold write_report, report_header, write. cbn [fold_left].
  by rewrite StrApp.app_nil_l, !StrApp.app_assoc.
Qed.

End report_properties.

(** ** The order of the rendered entries *)

Module SiblingFacts.
Import PathFacts TreeFacts RenderFacts RenderMore.

Lemma join_cons {A} (l : list A) (ls : list (list A)) :
  mjoin (l :: ls) = l ++ mjoin ls.
Proof. reflexivity. Qed.

Lemma filter_join {A} (P : A → Prop) `{∀ x, Decision (P x)} (ls : list (list A)) :
  filter P (mjoin ls) = mjoin (filter P <$> ls).
Proof.
  induction ls as [|l ls IH]; [done|].
  by rewrite fmap_cons, !join_cons, filter_app, IH.
Qed.

Lemma filter_none {A} (P : A → Prop) `{∀ x, Decision (P x)} (l : list A) :
  (∀ x, x ∈ l → ¬ P x) → filter P l = [].
Proof.
  induction l as [|x l IH]; intros Hnone; [done|].
  rewrite filter_cons, decide_False by (apply Hnone; left).
  apply IH. intros y Hy. apply Hnone. by right.
Qed.

Lemma join_if_singleton {A} (keep : A → bool) (l : list A) :
  mjoin ((λ x, if keep x then [x] else []) <$> l)
  = filter (λ x, keep x = true) l.
Proof.
  induction l as [|x l IH]; [done|].
  rewrite fmap_cons, filter_cons, join_cons, IH.
  destruct (keep x); [by rewrite decide_True|by rewrite decide_False].
Qed.

Lemma StronglySorted_filter {A} (R : relation A) (P : A → Prop)
    `{∀ x, Decision (P x)} (l : list A) :
  StronglySorted R l → StronglySorted R (filter P l).
Proof.
  induction 1 as [|x l Hsorted IH Hall]; [constructor|].
  rewrite filter_cons. destruct (decide (P x)); [|done].
  constructor; [done|].
  rewrite Forall_forall in *. intros y [_ Hy]%list_elem_of_filter. by apply Hall.
Qed.

(** The names on the lines of the entries of the listed directory, in the
    order of the lines. *)
Lemma recurse_dir_trace_siblings name children parents prefix :
  (entry_name ∘ line_entry)
    <$> filter (λ l, line_parents l = parents)
          (recurse_dir_trace (Dir name true children) parents prefix)
  = filter (λ item, gets_line children item = true)
      (sorted (entry_name <$> children)).
Proof.
  cbn [recurse_dir_trace].
  etrans; [|apply (join_if_singleton (gets_line children))].
  rewrite filter_join, fmap_join, <- list_fmap_compose, fmap_imap. f_equal.
  etrans; [|apply imap_const].
  apply imap_ext. intros i item _. unfold compose, const, gets_line.
  rewrite (lookup_child_fmap
             (λ block, (entry_name ∘ line_entry)
                         <$> filter (λ l, line_parents l = parents) block)).
  rewrite (lookup_child_fmap (λ keep : bool, if keep then [item] else [])).
  cbn beta. rewrite filter_cons, decide_True by done.
  apply lookup_child_ext. intros c Hc Hname.
  destruct (isdir c && is_ignore_dir item); [done|]. cbn [negb].
  rewrite filter_cons, decide_True by done.
  rewrite fmap_cons. unfold compose at 1. cbn [line_entry]. rewrite Hname.
  f_equal. rewrite filter_none; [done|].
  intros l Hl Hparents. destruct (isdir c); [|by apply elem_of_nil in Hl].
  destruct (recurse_dir_trace_format _ _ _ _ Hl) as (flags & _ & Hlen & _).
  rewrite Hparents, length_app in Hlen. simpl in Hlen. lia.
Qed.

End SiblingFacts.

Section sibling_properties.
Import PathFacts TreeFacts RenderFacts RenderMore SiblingFacts.

(** X16.  In the rendering of a directory, the lines of its own entries come
    in the sorted order of their names, whatever the directories in between
    hold. *)
Theorem recurse_dir_siblings_sorted current parents prefix :
  StronglySorted String.le
    ((entry_name ∘ line_entry)
       <$> filter (λ l, line_parents l = parents)
             (recurse_dir_trace current parents prefix)).
Proof.
  destruct current as [name|name [] children]; [constructor| |constructor].
  rewrite recurse_dir_trace_siblings. apply StronglySorted_filter.
  unfold sorted. apply StronglySorted_merge_sort; apply _.
Qed.

End sibling_properties.
